(** * TushareDataHandler (src/api/ashare.py): fetch-and-reshape pipeline

    A shallow embedding of the benchmark method and the four fetchers of
    [TushareDataHandler], and of the pandas operations they are written
    with, followed by the properties the specification states about them.

    Conventions of the embedding.
    - Numeric cells are IEEE binary64 numbers ([Float64.float], the Standard
      Library's [spec_float] at precision 53); the pandas missing marker is
      NaN.
    - A trade date is the day [pd.to_datetime] parses from the provider's
      YYYYMMDD text, held as an integer; only its order and equality are used.
    - Remote calls, [print] and [time.sleep] are recorded, in program order,
      in a trace of events; an exception ends the run with the trace so far.
    - [sleep_time] is a Python int or float; CPython's [time.sleep] refuses
      with [OverflowError] a pause that does not fit a signed 64-bit count
      of nanoseconds.
    - The sorts pandas runs with [kind='quicksort'] are not stable: they are
      modelled by any key sort (class [Quicksort]), with insertion sort as
      the executable instance. *)

From Stdlib Require Import ZArith List String Bool Lia.
From Stdlib Require Import Sorting.Permutation Sorting.Sorted.
From Stdlib Require Import Floats.SpecFloat.
Import ListNotations.

Local Open Scope string_scope.
Local Open Scope list_scope.
Local Open Scope Z_scope.

(** ** binary64 arithmetic, as numpy computes it on float64 columns *)

Module Float64.

Definition float : Type := spec_float.

Definition prec : Z := 53.
Definition emax : Z := 1024.

Definition add : float -> float -> float := SFadd prec emax.
Definition mul : float -> float -> float := SFmul prec emax.
Definition div : float -> float -> float := SFdiv prec emax.

(** The float64 nearest to an integer (exact below 2^53). *)
Definition of_Z (n : Z) : float := binary_normalize prec emax n 0 false.

(** The float64 nearest to the decimal [n / 10^d], the value Python reads
    from a literal such as 0.99 (correctly rounded division of two exactly
    represented integers). *)
Definition of_decimal (n : Z) (d : nat) : float :=
  div (of_Z n) (of_Z (10 ^ Z.of_nat d)).

Definition zero : float := of_Z 0.
Definition one : float := of_Z 1.
Definition hundred : float := of_Z 100.
Definition nan : float := S754_nan.

(** [x < y]: false when either is NaN. *)
Definition ltb : float -> float -> bool := SFltb.

Definition isnan (x : float) : bool :=
  match x with
  | S754_nan => true
  | _ => false
  end.

End Float64.

Definition float : Type := Float64.float.

(** ** Exceptions, events and the run of a method *)

Inductive value_error : Type :=
  | NoObjectsToConcatenate      (* pd.concat([]) *)
  | NotOneDimensional           (* pd.DataFrame given a 2-D column *)
  | ReindexDuplicateLabels.     (* aligning a Series whose index repeats a label *)

Inductive exn : Type :=
  | KeyError (key : string)
  | ValueError (why : value_error)
  | IndexError
  | OverflowError               (* time.sleep: pause too large *)
  | RemoteError.                (* whatever the provider client raises *)

Inductive api : Type := Daily | DailyBasic | IndexDaily.

Inductive message : Type :=
  | MsgStartPrices              (* "开始获取行情数据..." *)
  | MsgStartFactors             (* "开始获取因子数据..." *)
  | MsgNum (num : nat)          (* print(num) *)
  | MsgDone                     (* "数据获取完成！" *)
  | MsgNoData.                  (* "API 未返回任何数据，请检查输入参数！" *)

(** A Python number: an int, or a float (infinities and NaN included). *)
Inductive number : Type :=
  | Int (n : Z)
  | Float (x : float).

Coercion Int : Z >-> number.

Inductive event : Type :=
  | Remote (name : api) (ts_code start_date end_date : string)
           (fields : list string)
  | Print (m : message)
  | Sleep (seconds : number).

Definition result (A : Type) : Type := (exn + A)%type.

(** A run: the events emitted, then the exception raised or the value
    returned. *)
Definition M (A : Type) : Type := (list event * result A)%type.

Definition ret {A} (a : A) : M A := ([], inr a).

Definition bind {A B} (m : M A) (k : A -> M B) : M B :=
  match m with
  | (t, inl e) => (t, inl e)
  | (t, inr a) => let (t', r) := k a in (t ++ t', r)
  end.

Definition raise {A} (e : exn) : M A := ([], inl e).
Definition emit (ev : event) : M unit := ([ev], inr tt).
Definition lift {A} (r : result A) : M A := ([], r).

Definition print (m : message) : M unit := emit (Print m).

Declare Scope run_scope.
Delimit Scope run_scope with run.
Notation "x <- m ;; k" := (bind m (fun x => k))
  (at level 61, m at next level, right associativity) : run_scope.
Notation "m ;; k" := (bind m (fun _ => k))
  (at level 61, right associativity) : run_scope.

(** The same sequencing for pure steps that may raise. *)
Definition rbind {A B} (r : result A) (k : A -> result B) : result B :=
  match r with
  | inl e => inl e
  | inr a => k a
  end.

Declare Scope result_scope.
Delimit Scope result_scope with result.
Notation "x <-- r ;; k" := (rbind r (fun x => k))
  (at level 61, r at next level, right associativity) : result_scope.

Fixpoint map_result {A B} (f : A -> result B) (l : list A) : result (list B) :=
  match l with
  | [] => inr []
  | a :: l' =>
      (b <-- f a ;; bs <-- map_result f l' ;; inr (b :: bs))%result
  end.

Definition trace {A} (m : M A) : list event := fst m.
Definition outcome {A} (m : M A) : result A := snd m.

Definition is_remote (ev : event) : bool :=
  match ev with
  | Remote _ _ _ _ _ => true
  | _ => false
  end.

(** ** Data model: long frames, the provider, the handler *)

(** One row of a provider response.  The identifying columns [trade_date]
    and [ts_code] are fields of the row; every other column is a named
    cell.  A column the row has no cell for reads as NaN, as after
    [pd.concat] of frames with different headers. *)
Record row : Type := mkRow {
  trade_date : Z;
  ts_code : string;
  cells : list (string * float)
}.

(** A long DataFrame: its header (the data columns, without the two
    identifying ones) and its rows in stored order.  The provider's client
    builds every frame from the header the server sends, so a response
    without rows still has its columns. *)
Record frame : Type := mkFrame {
  columns : list string;
  rows : list row
}.

Inductive response : Type :=
  | Failed                      (* the client raises: network, auth, quota *)
  | Returned (df : frame).

(** [self.pro]: the provider client, a function of the request. *)
Record pro_api : Type := mkPro {
  daily : string -> string -> string -> response;
  daily_basic : string -> string -> string -> list string -> response;
  index_daily : string -> string -> string -> response
}.

Record TushareDataHandler : Type := mkHandler {
  start_date : string;
  end_date : string;
  frequency : string;
  pro : pro_api
}.

(** The wide table: column keys (symbol, field) in order, and one row per
    index label, each with one cell per column. *)
Record wide : Type := mkWide {
  wcolumns : list (string * string);
  wrows : list (Z * list float)
}.

Definition windex (w : wide) : list Z := map fst (wrows w).

(** A Series: index labels with their values, in stored order. *)
Definition series : Type := list (Z * float).

(** What [df.loc[mask, label]] selects: a Series when one column carries
    the label, a two-dimensional table when several do. *)
Inductive selection : Type :=
  | OneColumn (s : series)
  | SeveralColumns (n : nat).

(** ** Sorting *)

Section InsertionSort.
Context {A : Type} (key : A -> Z).

Fixpoint insert_by (x : A) (l : list A) : list A :=
  match l with
  | [] => [x]
  | y :: l' => if key x <=? key y then x :: l else y :: insert_by x l'
  end.

Fixpoint isort_by (l : list A) : list A :=
  match l with
  | [] => []
  | x :: l' => insert_by x (isort_by l')
  end.
End InsertionSort.

Definition key_le {A} (key : A -> Z) (x y : A) : Prop := key x <= key y.

(** numpy's [argsort(kind='quicksort')] applied through a key: some
    function that returns the elements ordered by key.  The order it gives
    to equal keys is not specified. *)
Class Quicksort : Type := {
  sort_by : forall A : Type, (A -> Z) -> list A -> list A;
  sort_by_perm : forall A key (l : list A), Permutation (sort_by A key l) l;
  sort_by_sorted :
    forall A key (l : list A), StronglySorted (key_le key) (sort_by A key l)
}.
Arguments sort_by {_} {A} key l.

Fixpoint is_monotonic_increasing (l : list Z) : bool :=
  match l with
  | [] => true
  | x :: l' =>
      match l' with
      | [] => true
      | y :: _ => (x <=? y) && is_monotonic_increasing l'
      end
  end.

(** ** Python and pandas operations used by the methods *)

Fixpoint list_eqb {A} (eqb : A -> A -> bool) (l1 l2 : list A) : bool :=
  match l1, l2 with
  | [], [] => true
  | x :: l1', y :: l2' => eqb x y && list_eqb eqb l1' l2'
  | _, _ => false
  end.

Definition mem (s : string) (l : list string) : bool :=
  existsb (String.eqb s) l.

(** [d[k]] on a dict held as an association list. *)
Fixpoint dict_get {V} (d : list (string * V)) (k : string) : result V :=
  match d with
  | [] => inl (KeyError k)
  | (k', v) :: d' => if String.eqb k' k then inr v else dict_get d' k
  end.

Definition key_eqb (a b : string * string) : bool :=
  String.eqb (fst a) (fst b) && String.eqb (snd a) (snd b).

(** [d[k] = v]: a key already present keeps its position. *)
Fixpoint dict_set {V} (d : list ((string * string) * V))
    (k : string * string) (v : V) : list ((string * string) * V) :=
  match d with
  | [] => [(k, v)]
  | (k', v') :: d' =>
      if key_eqb k' k then (k', v) :: d' else (k', v') :: dict_set d' k v
  end.

(** The value of column [c] in a row. *)
Fixpoint cell_of (cs : list (string * float)) (c : string) : float :=
  match cs with
  | [] => Float64.nan
  | (c', v) :: cs' => if String.eqb c' c then v else cell_of cs' c
  end.

Definition cell (r : row) (c : string) : float := cell_of (cells r) c.

(** [df['ts_code'] = stock]. *)
Definition set_ts_code (stock : string) (df : frame) : frame :=
  mkFrame (columns df)
          (map (fun r => mkRow (trade_date r) stock (cells r)) (rows df)).

(** Header of a concatenation: every column, at its first appearance. *)
Fixpoint union_columns (acc : list string) (l : list string) : list string :=
  match l with
  | [] => acc
  | c :: l' => if mem c acc then union_columns acc l'
               else union_columns (acc ++ [c]) l'
  end.

(** [pd.concat(all_data)]. *)
Definition concat (all_data : list frame) : result frame :=
  match all_data with
  | [] => inl (ValueError NoObjectsToConcatenate)
  | _ => inr (mkFrame (fold_left union_columns (map columns all_data) [])
                      (flat_map rows all_data))
  end.

(** [df.empty]: no row (the identifying columns are always there). *)
Definition empty (df : frame) : bool :=
  match rows df with
  | [] => true
  | _ => false
  end.

(** [df[fields]]: the listed columns, in the listed order.  pandas names
    every missing column in its [KeyError]; the model names the first. *)
Definition getitem (df : frame) (fields : list string) : result frame :=
  match find (fun f => negb (mem f (columns df))) fields with
  | Some f => inl (KeyError f)
  | None =>
      inr (mkFrame fields
             (map (fun r => mkRow (trade_date r) (ts_code r)
                              (map (fun f => (f, cell r f)) fields))
                  (rows df)))
  end.

(** [df.rename(columns=mapping)]: labels outside the mapping stay. *)
Definition rename_label (mapping : list (string * string)) (c : string)
  : string :=
  match dict_get mapping c with
  | inr c' => c'
  | inl _ => c
  end.

Definition rename (mapping : list (string * string)) (df : frame) : frame :=
  mkFrame (map (rename_label mapping) (columns df))
    (map (fun r => mkRow (trade_date r) (ts_code r)
                     (map (fun cv => (rename_label mapping (fst cv), snd cv))
                          (cells r)))
         (rows df)).

(** [index.get_level_values('ts_code').unique()]: first-seen order. *)
Fixpoint unique (l : list string) : list string :=
  match l with
  | [] => []
  | s :: l' => s :: filter (fun s' => negb (String.eqb s' s)) (unique l')
  end.

Definition symbols (df : frame) : list string := unique (map ts_code (rows df)).

Definition of_symbol (stock : string) (r : row) : bool :=
  String.eqb (ts_code r) stock.

(** [df.loc[ts_code == stock, field].droplevel('ts_code')]. *)
Definition loc (df : frame) (stock field : string) : result selection :=
  match count_occ string_dec (columns df) field with
  | O => inl (KeyError field)
  | S O => inr (OneColumn (map (fun r => (trade_date r, cell r field))
                               (filter (of_symbol stock) (rows df))))
  | S (S n) => inr (SeveralColumns (S (S n)))
  end.

(** *** [pd.DataFrame(dict of Series)] and [sort_index] *)

Fixpoint remove_one (x : Z) (l : list Z) : list Z :=
  match l with
  | [] => []
  | y :: l' => if x =? y then l' else y :: remove_one x l'
  end.

(** The labels of [other] beyond those of [self], counted with
    multiplicity. *)
Definition labels_beyond (self other : list Z) : list Z :=
  fold_left (fun acc x => remove_one x acc) self other.

(** [self.union(other, sort=None)] on two DatetimeIndex without frequency
    (pandas 1.3 and later): [self] when [other] is empty or equal to it,
    [other] when [self] is empty, otherwise every label with the larger of
    its two multiplicities, in ascending order. *)
Definition index_union (self other : list Z) : list Z :=
  match other, self with
  | [], _ => self
  | _, [] => other
  | _, _ =>
      if list_eqb Z.eqb self other then self
      else isort_by (fun d => d) (self ++ labels_beyond self other)
  end.

Definition union_indexes (indexes : list (list Z)) : list Z :=
  match indexes with
  | [] => []
  | i :: others => fold_left index_union others i
  end.

Fixpoint has_duplicates (l : list Z) : bool :=
  match l with
  | [] => false
  | x :: l' => existsb (Z.eqb x) l' || has_duplicates l'
  end.

Fixpoint lookup (s : series) (d : Z) : float :=
  match s with
  | [] => Float64.nan
  | (d', v) :: s' => if d' =? d then v else lookup s' d
  end.

(** [s.reindex(index)]: the values as they are when the Series already has
    that index; refused when the Series repeats a label; otherwise the value
    at each label, NaN where the Series has none. *)
Definition reindex (index : list Z) (s : series) : result (list float) :=
  if list_eqb Z.eqb (map fst s) index then inr (map snd s)
  else if has_duplicates (map fst s)
       then inl (ValueError ReindexDuplicateLabels)
       else inr (map (lookup s) index).

(** Row [i] of the table: label [i] with the [i]-th value of every column. *)
Fixpoint assemble (index : list Z) (cols : list (list float))
  : list (Z * list float) :=
  match index with
  | [] => []
  | d :: index' =>
      (d, map (hd Float64.nan) cols) :: assemble index' (map (@tl float) cols)
  end.

Definition as_series (v : selection) : result series :=
  match v with
  | OneColumn s => inr s
  | SeveralColumns _ => inl (ValueError NotOneDimensional)
  end.

Definition DataFrame (data : list ((string * string) * selection))
  : result wide :=
  match data with
  | [] => inr (mkWide [] [])
  | _ =>
      (ss <-- map_result as_series (map snd data) ;;
       let index := union_indexes (map (map fst) ss) in
       cols <-- map_result (reindex index) ss ;;
       inr (mkWide (map fst data) (assemble index cols)))%result
  end.

(** [df.sort_index(ascending=True)]: nothing is moved when the index is
    already monotonic increasing. *)
Definition sort_index `{Quicksort} (w : wide) : wide :=
  if is_monotonic_increasing (windex w) then w
  else mkWide (wcolumns w) (sort_by fst (wrows w)).

(** *** The block shared by the four fetchers

    Lines 99-110 of [get_prices_from_tushare]; the same statements stand at
    lines 150-159, 197-207 and 238-248 of the other three. *)

Fixpoint for_fields (df : frame) (stock : string) (loop_fields : list string)
    (data : list ((string * string) * selection))
  : result (list ((string * string) * selection)) :=
  match loop_fields with
  | [] => inr data
  | field :: rest =>
      (s <-- loc df stock field ;;
       for_fields df stock rest (dict_set data (stock, field) s))%result
  end.

Fixpoint for_stocks (df : frame) (stocks loop_fields : list string)
    (data : list ((string * string) * selection))
  : result (list ((string * string) * selection)) :=
  match stocks with
  | [] => inr data
  | stock :: rest =>
      (data' <-- for_fields df stock loop_fields data ;;
       for_stocks df rest loop_fields data')%result
  end.

Definition new_structure_data (df : frame) (loop_fields : list string)
  : result (list ((string * string) * selection)) :=
  for_stocks df (symbols df) loop_fields [].

Definition new_structure_df `{Quicksort} (df : frame)
    (loop_fields : list string) : result wide :=
  (data <-- new_structure_data df loop_fields ;;
   new_df <-- DataFrame data ;;
   inr (sort_index new_df))%result.

(** *** Remote calls and pacing *)

Definition of_response (r : response) : result frame :=
  match r with
  | Failed => inl RemoteError
  | Returned df => inr df
  end.

Definition call_daily (h : TushareDataHandler) (ts : string) : M frame :=
  (emit (Remote Daily ts (start_date h) (end_date h) []) ;;
   lift (of_response (daily (pro h) ts (start_date h) (end_date h))))%run.

Definition call_daily_basic (h : TushareDataHandler) (ts : string)
    (fields : list string) : M frame :=
  (emit (Remote DailyBasic ts (start_date h) (end_date h) fields) ;;
   lift (of_response
           (daily_basic (pro h) ts (start_date h) (end_date h) fields)))%run.

Definition call_index_daily (h : TushareDataHandler) (ts : string) : M frame :=
  (emit (Remote IndexDaily ts (start_date h) (end_date h) []) ;;
   lift (of_response (index_daily (pro h) ts (start_date h) (end_date h))))%run.

(** [sleep_time > 0]: exact for an int as for a float; false for NaN. *)
Definition is_positive (sleep_time : number) : bool :=
  match sleep_time with
  | Int n => 0 <? n
  | Float x => Float64.ltb Float64.zero x
  end.

(** [time.sleep(secs)] first turns a positive [secs] into a count of
    nanoseconds held in a signed 64-bit integer, and raises [OverflowError]
    instead of sleeping when the count does not fit.  An int is multiplied
    by 10^9 exactly and must stay below 2^63.  A float is multiplied by 1e9
    in binary64 and rounded up to a whole number, which must be below 2^63:
    as no float lies strictly between 2^63 - 1 and 2^63, that is the product
    itself being below 2^63 (positive infinity is not). *)
Definition nanoseconds_overflow (secs : number) : bool :=
  match secs with
  | Int n => 2 ^ 63 <=? n * 10 ^ 9
  | Float x =>
      negb (Float64.ltb (Float64.mul x (Float64.of_Z (10 ^ 9)))
                        (Float64.of_Z (2 ^ 63)))
  end.

(** [if sleep_time > 0: time.sleep(sleep_time)]. *)
Definition pace (sleep_time : number) : M unit :=
  if is_positive sleep_time
  then if nanoseconds_overflow sleep_time then raise OverflowError
       else emit (Sleep sleep_time)
  else ret tt.

(** ** The methods of [TushareDataHandler] *)

(** *** [get_index_prices_from_tushare] *)

(** [np.cumprod]: each element times the product before it, left to
    right. *)
Fixpoint accumulate_mul (acc : float) (l : list float) : list float :=
  match l with
  | [] => []
  | x :: l' => let acc' := Float64.mul acc x in acc' :: accumulate_mul acc' l'
  end.

Definition np_cumprod (l : list float) : list float :=
  match l with
  | [] => []
  | x :: l' => x :: accumulate_mul x l'
  end.

(** [Series.cumprod()] with its default [skipna=True]: a NaN counts as 1.0
    in the product and is put back at its own position. *)
Definition cumprod (values : list float) : list float :=
  let vals := map (fun v => if Float64.isnan v then Float64.one else v) values in
  map (fun mv => if Float64.isnan (fst mv) then Float64.nan else snd mv)
      (combine values (np_cumprod vals)).

(** [1 + pct_chg / 100] on one value. *)
Definition growth (pct_chg : float) : float :=
  Float64.add Float64.one (Float64.div pct_chg Float64.hundred).

(** A row of the returned benchmark frame: the index label and the two
    columns kept by [benchmark_data[['ts_code', 'benchmark_net_value']]]. *)
Record benchmark_row : Type := mkBenchmark {
  b_trade_date : Z;
  b_ts_code : string;
  benchmark_net_value : float
}.

Definition get_index_prices_from_tushare `{Quicksort}
    (self : TushareDataHandler) (index_code : string)
  : M (list benchmark_row) :=
  (benchmark_data <- call_index_daily self index_code ;;
   (* sort_values(by='trade_date'); set_index('trade_date') *)
   let sorted := sort_by trade_date (rows benchmark_data) in
   (* (1 + benchmark_data['pct_chg'] / 100).cumprod() *)
   if negb (mem "pct_chg" (columns benchmark_data))
   then raise (KeyError "pct_chg")
   else
     let net_value := cumprod (map (fun r => growth (cell r "pct_chg")) sorted) in
     (* .loc[benchmark_data.index[0], 'benchmark_net_value'] = 1.0 *)
     match sorted with
     | [] => raise IndexError
     | first :: _ =>
         ret (map (fun rv =>
                     mkBenchmark (trade_date (fst rv)) (ts_code (fst rv))
                       (if trade_date (fst rv) =? trade_date first
                        then Float64.one else snd rv))
                  (combine sorted net_value))
     end)%run.

(** *** [get_prices_from_tushare] *)

Definition field_mapping : list (string * string) :=
  [("open", "Open"); ("high", "High"); ("low", "Low"); ("close", "Close");
   ("vol", "Volume")].

(** Lines 94-110, after the dates are parsed and the index is set: select
    the requested columns, rename them, build the wide table.  Lines 145-159
    of [get_prices_from_tushare_parallel] are the same statements. *)
Definition reshape_prices `{Quicksort} (combined_data : frame)
    (fields mapped_fields : list string) : result wide :=
  (combined_data <-- getitem combined_data fields ;;
   let combined_data := rename field_mapping combined_data in
   new_structure_df combined_data mapped_fields)%result.

(** The [for stock in stock_list] loop of lines 77-86; [num] is the counter
    it prints. *)
Fixpoint fetch_daily (self : TushareDataHandler) (sleep_time : number)
    (stock_list : list string) (num : nat) : M (list frame) :=
  match stock_list with
  | [] => ret []
  | stock :: rest =>
      (df <- call_daily self stock ;;
       let df := set_ts_code stock df in
       pace sleep_time ;;
       print (MsgNum num) ;;
       all_data <- fetch_daily self sleep_time rest (S num) ;;
       ret (df :: all_data))%run
  end.

Definition get_prices_from_tushare `{Quicksort} (self : TushareDataHandler)
    (stock_list fields : list string) (sleep_time : number) : M wide :=
  (mapped_fields <- lift (map_result (dict_get field_mapping) fields) ;;
   print MsgStartPrices ;;
   all_data <- fetch_daily self sleep_time stock_list 0 ;;
   print MsgDone ;;
   lift (combined_data <-- concat all_data ;;
         reshape_prices combined_data fields mapped_fields)%result)%run.

(** *** [get_prices_from_tushare_parallel] *)

Definition join (sep : string) (l : list string) : string :=
  String.concat sep l.

Definition get_prices_from_tushare_parallel `{Quicksort}
    (self : TushareDataHandler) (stock_list fields : list string)
  : M (option wide) :=
  (mapped_fields <- lift (map_result (dict_get field_mapping) fields) ;;
   print MsgStartPrices ;;
   df_all <- call_daily self (join "," stock_list) ;;
   if empty df_all
   then (print MsgNoData ;; ret None)
   else
     (print MsgDone ;;
      lift (new_df <-- reshape_prices df_all fields mapped_fields ;;
            inr (Some new_df))%result))%run.

(** *** [get_factors_from_tushare] *)

(** Lines 195-207 (and 235-248 of the parallel variant): select the
    factor columns and build the wide table; nothing is renamed. *)
Definition reshape_factors `{Quicksort} (combined_data : frame)
    (factors : list string) : result wide :=
  (combined_data <-- getitem combined_data factors ;;
   new_structure_df combined_data factors)%result.

(** The loop of lines 176-184: no counter is printed here. *)
Fixpoint fetch_daily_basic (self : TushareDataHandler) (sleep_time : number)
    (factors_with_date stock_list : list string) : M (list frame) :=
  match stock_list with
  | [] => ret []
  | stock :: rest =>
      (df <- call_daily_basic self stock factors_with_date ;;
       let df := set_ts_code stock df in
       pace sleep_time ;;
       all_data <- fetch_daily_basic self sleep_time factors_with_date rest ;;
       ret (df :: all_data))%run
  end.

Definition get_factors_from_tushare `{Quicksort} (self : TushareDataHandler)
    (stock_list factors : list string) (sleep_time : number) : M wide :=
  (let factors_with_date := factors ++ ["trade_date"] in
   print MsgStartFactors ;;
   all_data <- fetch_daily_basic self sleep_time factors_with_date stock_list ;;
   print MsgDone ;;
   lift (combined_data <-- concat all_data ;;
         reshape_factors combined_data factors)%result)%run.

(** *** [get_factors_from_tushare_parallel] *)

Definition get_factors_from_tushare_parallel `{Quicksort}
    (self : TushareDataHandler) (stock_list factors : list string)
  : M (option wide) :=
  (let factors_with_date := factors ++ ["trade_date"; "ts_code"] in
   print MsgStartFactors ;;
   df_all <- call_daily_basic self (join "," stock_list) factors_with_date ;;
   if empty df_all
   then (print MsgNoData ;; ret None)
   else
     (print MsgDone ;;
      lift (new_df <-- reshape_factors df_all factors ;;
            inr (Some new_df))%result))%run.

(** *** [get_index_list] *)

(** One row of an [index_weight] answer. *)
Record weight_row : Type := mkWeight {
  w_index_code : string;
  con_code : string;
  w_trade_date : Z;
  weight : float
}.

Inductive weights_response : Type :=
  | WeightsFailed
  | Weights (index_weights : list weight_row).

(** [self.pro.index_weight], the one interface of the client that the
    fetchers do not use; it is passed beside the handler. *)
Definition index_weight_api : Type :=
  string -> string -> string -> weights_response.

(** [list(set(codes))]: every code once, in an order Python does not fix
    (it follows the hashes of the strings).  Any listing without repetition
    models it; first-seen order is the executable instance. *)
Class SetOrder : Type := {
  list_of_set : list string -> list string;
  list_of_set_NoDup : forall l, NoDup (list_of_set l);
  list_of_set_In : forall l c, In c (list_of_set l) <-> In c l
}.

(** The method makes its one remote call and nothing else; it is modelled
    by what it returns. *)
Definition get_index_list `{SetOrder} (index_weight : index_weight_api)
    (self : TushareDataHandler) (index_code : string)
  : result (list string) :=
  match index_weight index_code (start_date self) (end_date self) with
  | WeightsFailed => inl RemoteError
  | Weights index_weights =>
      let unique_stock_list := list_of_set (map con_code index_weights) in
      inr unique_stock_list
  end.

(** ** Example inputs *)

Module Examples.

Definition f64 (n : Z) (d : nat) : float := Float64.of_decimal n d.

(** A provider without data: every call succeeds with the given header and
    no row. *)
Definition no_data (header : list string) : pro_api :=
  mkPro (fun _ _ _ => Returned (mkFrame header []))
        (fun _ _ _ _ => Returned (mkFrame header []))
        (fun _ _ _ => Returned (mkFrame header [])).

(** A provider given by a table of answers: the frame listed for the
    requested [ts_code] text, the empty frame for any other.  The same table
    serves the three interfaces. *)
Fixpoint answer (header : list string) (answers : list (string * frame))
    (ts : string) : response :=
  match answers with
  | [] => Returned (mkFrame header [])
  | (ts', df) :: rest =>
      if String.eqb ts' ts then Returned df else answer header rest ts
  end.

Definition answering (header : list string) (answers : list (string * frame))
  : pro_api :=
  mkPro (fun ts _ _ => answer header answers ts)
        (fun ts _ _ _ => answer header answers ts)
        (fun ts _ _ => answer header answers ts).

(** One row dated 20240102 for symbol [ts], with 1.5 in every column. *)
Definition one_row (header : list string) (ts : string) : frame :=
  mkFrame header
    [mkRow 20240102 ts (map (fun c => (c, f64 15 1)) header)].

Definition price_header : list string :=
  ["open"; "high"; "low"; "close"; "pre_close"; "change"; "pct_chg"; "vol";
   "amount"].

(** Index 000016.SH over three ascending dates with pct_chg 0.5, -1.0, 2.0,
    delivered newest first as the provider does. *)
Definition scenario_c : frame :=
  mkFrame ["close"; "pct_chg"]
    [mkRow 20240104 "000016.SH" [("close", f64 0 0); ("pct_chg", f64 20 1)];
     mkRow 20240103 "000016.SH" [("close", f64 0 0); ("pct_chg", f64 (-10) 1)];
     mkRow 20240102 "000016.SH" [("close", f64 0 0); ("pct_chg", f64 5 1)]].

Definition handler (p : pro_api) : TushareDataHandler :=
  mkHandler "20240101" "20240131" "D" p.

Definition close_row (date : Z) (ts : string) (close : float) : row :=
  mkRow date ts [("close", close)].

(** Scenario A of the specification: AAA trades on three dates, BBB misses
    the middle one; rows are delivered newest first. *)
Definition aaa : frame :=
  mkFrame price_header
    [close_row 20240104 "AAA" (f64 103 1);
     close_row 20240103 "AAA" (f64 102 1);
     close_row 20240102 "AAA" (f64 101 1)].

Definition bbb : frame :=
  mkFrame price_header
    [close_row 20240104 "BBB" (f64 203 1);
     close_row 20240102 "BBB" (f64 201 1)].

(** The combined answer, by date (newest first) and then by symbol. *)
Definition aaa_bbb : frame :=
  mkFrame price_header
    [close_row 20240104 "AAA" (f64 103 1);
     close_row 20240104 "BBB" (f64 203 1);
     close_row 20240103 "AAA" (f64 102 1);
     close_row 20240102 "AAA" (f64 101 1);
     close_row 20240102 "BBB" (f64 201 1)].

Definition scenario_a : TushareDataHandler :=
  handler (answering price_header
             [("AAA", aaa); ("BBB", bbb); ("AAA,BBB", aaa_bbb);
              ("BBB,AAA", aaa_bbb)]).

Definition scenario_a_wide : wide :=
  mkWide [("AAA", "Close"); ("BBB", "Close")]
    [(20240102, [f64 101 1; f64 201 1]);
     (20240103, [f64 102 1; Float64.nan]);
     (20240104, [f64 103 1; f64 203 1])].

(** A response that repeats a (date, symbol) pair. *)
Definition repeated : frame :=
  mkFrame price_header
    [close_row 20240102 "AAA" (f64 101 1);
     close_row 20240102 "AAA" (f64 999 1)].

(** Index 000016.SH over a window in which BBB replaces AAA. *)
Definition membership : list weight_row :=
  [mkWeight "000016.SH" "AAA" 20240102 (f64 50 0);
   mkWeight "000016.SH" "CCC" 20240102 (f64 50 0);
   mkWeight "000016.SH" "BBB" 20240131 (f64 50 0);
   mkWeight "000016.SH" "CCC" 20240131 (f64 50 0)].

Definition membership_api : index_weight_api :=
  fun index_code _ _ =>
    if String.eqb index_code "000016.SH" then Weights membership
    else Weights [].




End Examples.

(** Insertion sort is such a sort: the executable instance. *)
#[export] Instance insertion_sort : Quicksort.
Proof.
  assert (Hins : forall A (key : A -> Z) x l,
             Permutation (insert_by key x l) (x :: l)).
  { intros A key x l. induction l as [|y l IH]; simpl.
    - apply Permutation_refl.
    - destruct (key x <=? key y).
      + apply Permutation_refl.
      + eapply perm_trans; [apply perm_skip, IH | apply perm_swap]. }
  refine {| sort_by := fun A key l => isort_by key l |}.
  - intros A key l. induction l as [|x l IH]; simpl.
    + apply perm_nil.
    + eapply perm_trans; [apply Hins | apply perm_skip, IH].
  - intros A key l. induction l as [|x l IH]; simpl; [constructor|].
    induction IH as [|y l' Hs IH' Hall]; simpl.
    + constructor; constructor.
    + destruct (key x <=? key y) eqn:E.
      * apply Z.leb_le in E. constructor.
        -- constructor; assumption.
        -- constructor; [exact E|].
           eapply Forall_impl; [|exact Hall].
           unfold key_le; intros; lia.
      * apply Z.leb_gt in E. constructor; [exact IH'|].
        eapply Permutation_Forall.
        -- apply Permutation_sym, Hins.
        -- constructor; [unfold key_le; lia | exact Hall].
Defined.

(** ** Vocabulary of the properties *)

(** What the loops return, apart from their events. *)
Definition fetched (get : string -> response) (stock_list : list string)
  : result (list frame) :=
  map_result (fun stock => (df <-- of_response (get stock) ;;
                            inr (set_ts_code stock df))%result)
             stock_list.

(** The names the normalization mapping knows. *)
Definition mapping_keys : list string := map fst field_mapping.

(** A run raises before any remote call: it ends in an exception and its
    trace holds no remote call. *)
Definition raises_before_any_call {A} (run : M A) : Prop :=
  (exists e, outcome run = inl e) /\ existsb is_remote (trace run) = false.


(** The keys a dict holds after the listed keys are assigned in order. *)
Definition add_key (ks : list (string * string)) (k : string * string)
  : list (string * string) :=
  if existsb (key_eqb k) ks then ks else ks ++ [k].

(** Every value stored in the dict is what [loc] selects for its key. *)
Definition selected (df : frame) (kv : (string * string) * selection) : Prop :=
  loc df (fst (fst kv)) (snd (fst kv)) = inr (snd kv).

(** The canonical name of a price field. *)
Definition canonical (field : string) : string :=
  rename_label field_mapping field.




(** The two fetchers return identical wide tables. *)
Definition identical_tables (sequential : result wide)
    (batch : result (option wide)) : Prop :=
  exists w, sequential = inr w /\ batch = inr (Some w).




(** Two results that raise the same exception or return related values. *)
Definition related {A} (R : A -> A -> Prop) (r1 r2 : result A) : Prop :=
  match r1, r2 with
  | inl e1, inl e2 => e1 = e2
  | inr a1, inr a2 => R a1 a2
  | _, _ => False
  end.




(** No (date, symbol) pair occurs in two rows. *)
Definition no_repeated_pair (df : frame) : Prop :=
  NoDup (map (fun r => (trade_date r, ts_code r)) (rows df)).


(** Column [j] of a wide table, as the Series of its labels and values. *)
Definition column_of (w : wide) (j : nat) : series :=
  map (fun row => (fst row, nth j (snd row) Float64.nan)) (wrows w).

(** The Series of a one-column selection. *)
Definition series_of (v : selection) : series :=
  match v with
  | OneColumn s => s
  | SeveralColumns _ => []
  end.

(** The remote calls of a run, in order. *)
Definition remote_calls {A} (run : M A) : list event :=
  filter is_remote (trace run).


(** The pause can be taken -- [pace] raises nothing: [sleep_time] is not
    positive, or its nanoseconds fit. *)
Definition pause_fits (sleep_time : number) : bool :=
  negb (is_positive sleep_time && nanoseconds_overflow sleep_time).



(** The symbol's call answers with at least one row. *)
Definition has_rows (get : string -> response) (stock : string) : bool :=
  match get stock with
  | Failed => false
  | Returned df => negb (empty df)
  end.

(** Every label once, first-seen order: the executable [SetOrder]. *)
#[export] Instance first_seen : SetOrder.
Proof.
  refine {| list_of_set := unique |}.
  - intros l. induction l as [|x l IH]; [constructor|].
    cbn [unique]. constructor.
    + rewrite filter_In. intros [_ Hx]. now rewrite String.eqb_refl in Hx.
    + now apply NoDup_filter.
  - intros l c. induction l as [|x l IH]; [reflexivity|].
    cbn [unique]. simpl. rewrite filter_In, IH.
    destruct (String.eqb c x) eqn:E.
    + apply String.eqb_eq in E. subst. intuition.
    + apply String.eqb_neq in E. intuition congruence.
Defined.

(** The value [v] is what the long table holds for a symbol, a field and a
    date: the cell of the (one) row of that symbol and date, NaN when the
    symbol has no row on that date. *)
Definition cell_from_long (long : frame) (stock field : string) (d : Z)
    (v : float) : Prop :=
  (forall r, In r (rows long) -> ts_code r = stock -> trade_date r = d ->
             v = cell r field) /\
  ((forall r, In r (rows long) -> ts_code r = stock -> trade_date r <> d) ->
   v = Float64.nan).




(** ** Insertion sort through its instance *)

Lemma isort_by_perm {A} (key : A -> Z) (l : list A) :
  Permutation (isort_by key l) l.
Proof. exact (sort_by_perm (Quicksort := insertion_sort) A key l). Qed.

Lemma isort_by_sorted {A} (key : A -> Z) (l : list A) :
  StronglySorted (key_le key) (isort_by key l).
Proof. exact (sort_by_sorted (Quicksort := insertion_sort) A key l). Qed.

(** ** Reading a run *)

Lemma outcome_bind {A B} (m : M A) (k : A -> M B) :
  outcome (bind m k) = rbind (outcome m) (fun a => outcome (k a)).
Proof.
  destruct m as [t [e|a]]; simpl; [reflexivity|].
  destruct (k a); reflexivity.
Qed.

Lemma trace_bind {A B} (m : M A) (k : A -> M B) :
  trace (bind m k) =
  trace m ++ match outcome m with
             | inl _ => []
             | inr a => trace (k a)
             end.
Proof.
  destruct m as [t [e|a]]; simpl.
  - symmetry; apply app_nil_r.
  - destruct (k a); reflexivity.
Qed.

Lemma outcome_lift {A} (r : result A) : outcome (lift r) = r.
Proof. reflexivity. Qed.

Lemma mem_In (s : string) (l : list string) : mem s l = true <-> In s l.
Proof.
  unfold mem. rewrite existsb_exists. split.
  - intros [x [Hin Heq]]. apply String.eqb_eq in Heq. now subst.
  - intros Hin. exists s. split; [assumption | apply String.eqb_refl].
Qed.

Lemma outcome_pace {B} (q : number) (k : unit -> M B) :
  pause_fits q = true -> outcome (bind (pace q) k) = outcome (k tt).
Proof.
  unfold pause_fits, pace. destruct (is_positive q); cbn [andb negb].
  - destruct (nanoseconds_overflow q); [discriminate|]. intros _.
    simpl. destruct (k tt); reflexivity.
  - intros _. simpl. destruct (k tt); reflexivity.
Qed.

(** A pause that does not fit raises before anything is slept. *)
Lemma pace_overflow (q : number) :
  pause_fits q = false -> pace q = ([], inl OverflowError).
Proof.
  unfold pause_fits, pace. destruct (is_positive q); cbn [andb negb].
  - now destruct (nanoseconds_overflow q).
  - discriminate.
Qed.

Lemma outcome_emit {B} (ev : event) (k : unit -> M B) :
  outcome (bind (emit ev) k) = outcome (k tt).
Proof. simpl. destruct (k tt); reflexivity. Qed.

Lemma outcome_fetch_daily (self : TushareDataHandler) (q : number)
    (stock_list : list string) (num : nat) :
  pause_fits q = true ->
  outcome (fetch_daily self q stock_list num) =
  fetched (fun ts => daily (pro self) ts (start_date self) (end_date self))
          stock_list.
Proof.
  intros Hq. revert num. induction stock_list as [|stock rest IH]; intros num.
  - reflexivity.
  - cbn [fetch_daily fetched map_result].
    unfold call_daily. rewrite outcome_bind, outcome_emit, outcome_lift.
    destruct (daily (pro self) stock (start_date self) (end_date self))
      as [|df]; [reflexivity|].
    cbn [of_response rbind].
    rewrite (outcome_pace _ _ Hq). unfold print. rewrite outcome_emit.
    rewrite outcome_bind, IH. unfold fetched.
    destruct (map_result _ rest); reflexivity.
Qed.

Lemma outcome_fetch_daily_basic (self : TushareDataHandler) (q : number)
    (fields stock_list : list string) :
  pause_fits q = true ->
  outcome (fetch_daily_basic self q fields stock_list) =
  fetched (fun ts => daily_basic (pro self) ts (start_date self)
                       (end_date self) fields)
          stock_list.
Proof.
  intros Hq. induction stock_list as [|stock rest IH].
  - reflexivity.
  - cbn [fetch_daily_basic fetched map_result].
    unfold call_daily_basic. rewrite outcome_bind, outcome_emit, outcome_lift.
    destruct (daily_basic (pro self) stock (start_date self) (end_date self)
                fields) as [|df]; [reflexivity|].
    cbn [of_response rbind].
    rewrite (outcome_pace _ _ Hq).
    rewrite outcome_bind, IH. unfold fetched.
    destruct (map_result _ rest); reflexivity.
Qed.

(** With a pause that does not fit, a loop over one symbol or more ends at
    its first turn: in the provider's error, or in [OverflowError] right
    after the first call. *)
Lemma fetch_daily_overflow (self : TushareDataHandler) (q : number)
    (stock : string) (rest : list string) (num : nat) :
  pause_fits q = false ->
  fetch_daily self q (stock :: rest) num =
  ([Remote Daily stock (start_date self) (end_date self) []],
   match daily (pro self) stock (start_date self) (end_date self) with
   | Failed => inl RemoteError
   | Returned _ => inl OverflowError
   end).
Proof.
  intros Hq. cbn [fetch_daily]. unfold call_daily.
  destruct (daily (pro self) stock (start_date self) (end_date self))
    as [|df]; [reflexivity|].
  cbn [of_response lift emit bind app]. now rewrite (pace_overflow q Hq).
Qed.

Lemma fetch_daily_basic_overflow (self : TushareDataHandler) (q : number)
    (fields : list string) (stock : string) (rest : list string) :
  pause_fits q = false ->
  fetch_daily_basic self q fields (stock :: rest) =
  ([Remote DailyBasic stock (start_date self) (end_date self) fields],
   match daily_basic (pro self) stock (start_date self) (end_date self)
           fields with
   | Failed => inl RemoteError
   | Returned _ => inl OverflowError
   end).
Proof.
  intros Hq. cbn [fetch_daily_basic]. unfold call_daily_basic.
  destruct (daily_basic (pro self) stock (start_date self) (end_date self)
              fields) as [|df]; [reflexivity|].
  cbn [of_response lift emit bind app]. now rewrite (pace_overflow q Hq).
Qed.

(** A loop that returns has returned what the per-symbol answers give. *)
Lemma outcome_fetch_daily_inr (self : TushareDataHandler) (q : number)
    (stock_list : list string) (num : nat) (all_data : list frame) :
  outcome (fetch_daily self q stock_list num) = inr all_data ->
  fetched (fun ts => daily (pro self) ts (start_date self) (end_date self))
          stock_list = inr all_data.
Proof.
  destruct (pause_fits q) eqn:Hq.
  - now rewrite (outcome_fetch_daily _ _ _ _ Hq).
  - destruct stock_list as [|stock rest]; [intros H; exact H|].
    rewrite (fetch_daily_overflow _ _ _ _ _ Hq). cbn [outcome snd].
    destruct (daily _ _ _ _); discriminate.
Qed.

Lemma outcome_fetch_daily_basic_inr (self : TushareDataHandler) (q : number)
    (fields stock_list : list string) (all_data : list frame) :
  outcome (fetch_daily_basic self q fields stock_list) = inr all_data ->
  fetched (fun ts => daily_basic (pro self) ts (start_date self)
                       (end_date self) fields)
          stock_list = inr all_data.
Proof.
  destruct (pause_fits q) eqn:Hq.
  - now rewrite (outcome_fetch_daily_basic _ _ _ _ Hq).
  - destruct stock_list as [|stock rest]; [intros H; exact H|].
    rewrite (fetch_daily_basic_overflow _ _ _ _ _ Hq). cbn [outcome snd].
    destruct (daily_basic _ _ _ _ _); discriminate.
Qed.



(** Whatever the pause: a table that is returned is the one the per-symbol
    answers give. *)
Lemma outcome_get_prices_inr `{Quicksort} (self : TushareDataHandler)
    (stock_list fields : list string) (q : number) (w : wide) :
  outcome (get_prices_from_tushare self stock_list fields q) = inr w ->
  (mapped_fields <-- map_result (dict_get field_mapping) fields ;;
   all_data <-- fetched (fun ts => daily (pro self) ts (start_date self)
                                     (end_date self)) stock_list ;;
   combined_data <-- concat all_data ;;
   reshape_prices combined_data fields mapped_fields)%result = inr w.
Proof.
  unfold get_prices_from_tushare.
  rewrite outcome_bind, outcome_lift.
  destruct (map_result (dict_get field_mapping) fields) as [e|mapped];
    [intros Hw; exact Hw|].
  cbn [rbind]. unfold print. rewrite outcome_emit, outcome_bind.
  destruct (outcome (fetch_daily self q stock_list 0)) as [e|all_data] eqn:E;
    [discriminate|].
  rewrite (outcome_fetch_daily_inr _ _ _ _ _ E).
  cbn [rbind]. rewrite outcome_emit. now rewrite outcome_lift.
Qed.

Lemma outcome_get_factors_inr `{Quicksort} (self : TushareDataHandler)
    (stock_list factors : list string) (q : number) (w : wide) :
  outcome (get_factors_from_tushare self stock_list factors q) = inr w ->
  (all_data <-- fetched (fun ts => daily_basic (pro self) ts (start_date self)
                                     (end_date self)
                                     (factors ++ ["trade_date"]))
                        stock_list ;;
   combined_data <-- concat all_data ;;
   reshape_factors combined_data factors)%result = inr w.
Proof.
  unfold get_factors_from_tushare.
  cbv zeta. unfold print. rewrite outcome_emit, outcome_bind.
  destruct (outcome (fetch_daily_basic self q (factors ++ ["trade_date"])
                       stock_list)) as [e|all_data] eqn:E; [discriminate|].
  rewrite (outcome_fetch_daily_basic_inr _ _ _ _ _ E).
  cbn [rbind]. rewrite outcome_emit. now rewrite outcome_lift.
Qed.

Lemma outcome_get_prices_parallel `{Quicksort} (self : TushareDataHandler)
    (stock_list fields : list string) :
  outcome (get_prices_from_tushare_parallel self stock_list fields) =
  (mapped_fields <-- map_result (dict_get field_mapping) fields ;;
   df_all <-- of_response (daily (pro self) (join "," stock_list)
                             (start_date self) (end_date self)) ;;
   if empty df_all then inr None
   else (new_df <-- reshape_prices df_all fields mapped_fields ;;
         inr (Some new_df)))%result.
Proof.
  unfold get_prices_from_tushare_parallel.
  rewrite outcome_bind, outcome_lift.
  destruct (map_result (dict_get field_mapping) fields) as [e|mapped];
    [reflexivity|].
  cbn [rbind]. unfold print, call_daily. rewrite outcome_emit.
  rewrite outcome_bind, outcome_emit, outcome_lift.
  destruct (daily _ _ _ _) as [|df]; [reflexivity|].
  cbn [of_response rbind].
  destruct (empty df); rewrite outcome_emit; reflexivity.
Qed.

Lemma outcome_get_factors_parallel `{Quicksort} (self : TushareDataHandler)
    (stock_list factors : list string) :
  outcome (get_factors_from_tushare_parallel self stock_list factors) =
  (df_all <-- of_response
                (daily_basic (pro self) (join "," stock_list)
                   (start_date self) (end_date self)
                   (factors ++ ["trade_date"; "ts_code"])) ;;
   if empty df_all then inr None
   else (new_df <-- reshape_factors df_all factors ;;
         inr (Some new_df)))%result.
Proof.
  unfold get_factors_from_tushare_parallel.
  cbv zeta. unfold print, call_daily_basic. rewrite outcome_emit.
  rewrite outcome_bind, outcome_emit, outcome_lift.
  destruct (daily_basic _ _ _ _ _) as [|df]; [reflexivity|].
  cbn [of_response rbind].
  destruct (empty df); rewrite outcome_emit; reflexivity.
Qed.

(** ** Key sorts agree on distinct keys *)

Lemma sorted_perm_unique {A} (key : A -> Z) (l1 l2 : list A) :
  Permutation l1 l2 ->
  StronglySorted (key_le key) l1 ->
  StronglySorted (key_le key) l2 ->
  NoDup (map key l1) ->
  l1 = l2.
Proof.
  revert l2. induction l1 as [|a l1 IH]; intros l2 Hp S1 S2 Hnd.
  - apply Permutation_nil in Hp. now subst.
  - destruct l2 as [|b l2].
    + apply Permutation_sym, Permutation_nil in Hp. discriminate.
    + inversion S1 as [|? ? S1' F1]; subst.
      inversion S2 as [|? ? S2' F2]; subst.
      inversion Hnd as [|? ? Hnotin Hnd']; subst.
      assert (Hb : In b (a :: l1)).
      { eapply Permutation_in; [apply Permutation_sym, Hp | now left]. }
      assert (Ha : In a (b :: l2)).
      { eapply Permutation_in; [apply Hp | now left]. }
      assert (Hab : a = b).
      { destruct Hb as [Hb|Hb]; [assumption|].
        destruct Ha as [Ha|Ha]; [now symmetry|].
        rewrite Forall_forall in F1, F2.
        specialize (F1 _ Hb). specialize (F2 _ Ha). unfold key_le in *.
        exfalso. apply Hnotin.
        replace (key a) with (key b) by lia.
        now apply in_map. }
      subst b. f_equal.
      apply IH; try assumption.
      eapply Permutation_cons_inv; exact Hp.
Qed.

(** Whatever the sort, rows with distinct keys come out as insertion sort
    orders them. *)
Lemma sort_by_distinct `{Quicksort} {A} (key : A -> Z) (l : list A) :
  NoDup (map key l) -> sort_by key l = isort_by key l.
Proof.
  intros Hnd. apply sorted_perm_unique with (key := key).
  - eapply perm_trans; [apply sort_by_perm|].
    apply Permutation_sym, isort_by_perm.
  - apply sort_by_sorted.
  - apply isort_by_sorted.
  - eapply Permutation_NoDup; [|exact Hnd].
    apply Permutation_map, Permutation_sym, sort_by_perm.
Qed.

(** ** The benchmark net value *)

Lemma one_is_1 : Float64.one = S754_finite false 4503599627370496 (-52).
Proof. reflexivity. Qed.

Lemma get_index_prices_distinct `{Quicksort} (self : TushareDataHandler)
    (index_code : string) (df : frame) :
  index_daily (pro self) index_code (start_date self) (end_date self)
    = Returned df ->
  NoDup (map trade_date (rows df)) ->
  get_index_prices_from_tushare self index_code =
  get_index_prices_from_tushare (H := insertion_sort) self index_code.
Proof.
  intros Hdf Hnd. unfold get_index_prices_from_tushare, call_index_daily.
  rewrite Hdf. cbn [of_response lift emit bind app].
  rewrite (sort_by_distinct trade_date (rows df) Hnd).
  reflexivity.
Qed.

(** C3: for a non-empty benchmark series (with its pct_chg column), the method
    returns a frame whose first row carries the earliest date and the net
    value exactly 1.0, whatever the percent change of that row. *)
Theorem first_net_value_is_one `{Quicksort} (self : TushareDataHandler)
    (index_code : string) (df : frame) :
  index_daily (pro self) index_code (start_date self) (end_date self)
    = Returned df ->
  rows df <> [] ->
  In "pct_chg" (columns df) ->
  exists first rest,
    outcome (get_index_prices_from_tushare self index_code)
      = inr (first :: rest) /\
    benchmark_net_value first = Float64.one /\
    Forall (fun r => b_trade_date first <= trade_date r) (rows df).
Proof.
  intros Hdf Hne Hcol.
  unfold get_index_prices_from_tushare, call_index_daily.
  rewrite Hdf. cbn [of_response lift emit bind app].
  apply mem_In in Hcol. rewrite Hcol. cbn [negb].
  pose proof (sort_by_perm _ trade_date (rows df)) as Hp.
  pose proof (sort_by_sorted _ trade_date (rows df)) as Hs.
  destruct (sort_by trade_date (rows df)) as [|r0 sorted].
  - apply Permutation_nil in Hp. contradiction.
  - cbn. rewrite Z.eqb_refl.
    eexists. eexists. split; [reflexivity|]. split; [reflexivity|].
    cbn [b_trade_date].
    inversion Hs as [|? ? _ Hall]; subst.
    eapply Permutation_Forall; [exact Hp|].
    constructor; [lia | exact Hall].
Qed.

Lemma first_net_value_is_one_witness :
  exists first rest,
    outcome (get_index_prices_from_tushare
               (Examples.handler
                  (Examples.answering [] [("000016.SH", Examples.scenario_c)]))
               "000016.SH") = inr (first :: rest) /\
    benchmark_net_value first = Float64.one /\
    Forall (fun r => b_trade_date first <= trade_date r)
           (rows Examples.scenario_c).
Proof.
  apply (first_net_value_is_one (H := insertion_sort)
           (Examples.handler
              (Examples.answering [] [("000016.SH", Examples.scenario_c)]))
           "000016.SH" Examples.scenario_c).
  - reflexivity.
  - discriminate.
  - simpl. right. left. reflexivity.
Defined.

(** C2: on the series of Scenario C (pct_chg 0.5, -1.0, 2.0 over three
    ascending dates) the method returns 1.0, then
    (1 + 0.5/100) * (1 + (-1.0)/100), then that times (1 + 2.0/100): the
    first row's change stays in every later value.  The second value is
    neither 1.0 * (1 + (-1.0)/100) nor 0.99, and the third is not 1.0098. *)
Theorem scenario_c_net_values `{Quicksort} :
  let v1 := Float64.mul (growth (Examples.f64 5 1))
                        (growth (Examples.f64 (-10) 1)) in
  let v2 := Float64.mul v1 (growth (Examples.f64 20 1)) in
  outcome (get_index_prices_from_tushare
             (Examples.handler
                (Examples.answering [] [("000016.SH", Examples.scenario_c)]))
             "000016.SH")
    = inr [mkBenchmark 20240102 "000016.SH" Float64.one;
           mkBenchmark 20240103 "000016.SH" v1;
           mkBenchmark 20240104 "000016.SH" v2] /\
  v1 = S754_finite false 8961712898504549 (-53) /\
  v2 = Examples.f64 1014849 6 /\
  v1 <> Float64.mul Float64.one (growth (Examples.f64 (-10) 1)) /\
  v1 <> Examples.f64 99 2 /\
  v2 <> Examples.f64 10098 4.
Proof.
  cbv zeta. split.
  - rewrite (get_index_prices_distinct _ _ Examples.scenario_c).
    + vm_compute. reflexivity.
    + reflexivity.
    + vm_compute. repeat constructor; simpl; intuition discriminate.
  - repeat split; vm_compute; try reflexivity; discriminate.
Qed.

(** ** The net values after the first *)

Lemma accumulate_mul_length (acc : float) (l : list float) :
  List.length (accumulate_mul acc l) = List.length l.
Proof.
  revert acc. induction l as [|x l IH]; intros acc; [reflexivity|].
  cbn. now rewrite IH.
Qed.

Lemma keep_values (values result : list float) :
  Forall (fun v => Float64.isnan v = false) values ->
  List.length result = List.length values ->
  map (fun mv : float * float =>
         if Float64.isnan (fst mv) then Float64.nan else snd mv)
      (List.combine values result)
  = result.
Proof.
  intros Hall. revert result.
  induction Hall as [|v values Hv _ IH]; intros [|x result] Hlen;
    try discriminate; [reflexivity|].
  cbn [List.combine map fst snd]. rewrite Hv. f_equal.
  apply IH. cbn in Hlen. lia.
Qed.

(** Without NaN, [Series.cumprod] is [np.cumprod]. *)
Lemma cumprod_without_nan (values : list float) :
  Forall (fun v => Float64.isnan v = false) values ->
  cumprod values = np_cumprod values.
Proof.
  intros Hall. unfold cumprod.
  assert (Hid : map (fun v => if Float64.isnan v then Float64.one else v)
                    values = values).
  { rewrite <- (map_id values) at 2. apply map_ext_in. intros v Hv.
    rewrite Forall_forall in Hall. now rewrite (Hall v Hv). }
  rewrite Hid. apply keep_values; [assumption|].
  destruct values as [|v values]; [reflexivity|].
  cbn. now rewrite accumulate_mul_length.
Qed.

(** On a series with distinct dates and no NaN, the method returns 1.0 for
    the first date and then the running product of all the changes, that of
    the first date included: value[1] = (1 + pct[0]/100) * (1 + pct[1]/100),
    and value[i] = value[i-1] * (1 + pct[i]/100) only from i = 2 on. *)
Lemma net_values_keep_first_change `{Quicksort} (self : TushareDataHandler)
    (index_code : string) (df : frame) (first : row) (rest : list row) :
  index_daily (pro self) index_code (start_date self) (end_date self)
    = Returned df ->
  In "pct_chg" (columns df) ->
  sort_by trade_date (rows df) = first :: rest ->
  NoDup (map trade_date (rows df)) ->
  Forall (fun r => Float64.isnan (growth (cell r "pct_chg")) = false)
         (rows df) ->
  outcome (get_index_prices_from_tushare self index_code) =
  inr (mkBenchmark (trade_date first) (ts_code first) Float64.one
       :: map (fun rv => mkBenchmark (trade_date (fst rv)) (ts_code (fst rv))
                           (snd rv))
              (List.combine rest
                 (accumulate_mul (growth (cell first "pct_chg"))
                    (map (fun r => growth (cell r "pct_chg")) rest)))).
Proof.
  intros Hdf Hcol Hsort Hnd Hnan.
  unfold get_index_prices_from_tushare, call_index_daily.
  rewrite Hdf. cbn [of_response lift emit bind app].
  apply mem_In in Hcol. rewrite Hcol. cbn [negb].
  pose proof (sort_by_perm _ trade_date (rows df)) as Hp.
  rewrite Hsort in *. cbn [outcome snd ret].
  rewrite cumprod_without_nan.
  2:{ rewrite Forall_map. eapply Permutation_Forall; [|exact Hnan].
      now apply Permutation_sym. }
  cbn [map np_cumprod List.combine fst snd trade_date ts_code].
  rewrite Z.eqb_refl. f_equal. f_equal.
  assert (Hfirst : ~ In (trade_date first) (map trade_date rest)).
  { assert (Hnd' : NoDup (map trade_date (first :: rest))).
    { eapply Permutation_NoDup; [|exact Hnd].
      apply Permutation_map, Permutation_sym, Hp. }
    now inversion Hnd'. }
  clear - Hfirst.
  generalize (growth (cell first "pct_chg")) as acc.
  induction rest as [|r rest IH]; intros acc; [reflexivity|].
  cbn [map accumulate_mul List.combine fst snd].
  destruct (trade_date r =? trade_date first) eqn:E.
  - apply Z.eqb_eq in E. exfalso. apply Hfirst. left. exact E.
  - f_equal. apply IH. intros Hin. apply Hfirst. now right.
Qed.

(** ** Field names and the normalization mapping *)

Lemma dict_get_inl {V} (d : list (string * V)) (k : string) (e : exn) :
  dict_get d k = inl e -> e = KeyError k /\ ~ In k (map fst d).
Proof.
  induction d as [|[k' v] d IH]; simpl.
  - intros [= <-]. split; [reflexivity | tauto].
  - destruct (String.eqb k' k) eqn:E; [discriminate|].
    intros Hd. destruct (IH Hd) as [-> Hn]. split; [reflexivity|].
    apply String.eqb_neq in E. intros [Hk|Hk]; [now apply E | now apply Hn].
Qed.

Lemma dict_get_inr {V} (d : list (string * V)) (k : string) (v : V) :
  dict_get d k = inr v -> In (k, v) d.
Proof.
  induction d as [|[k' v'] d IH]; simpl; [discriminate|].
  destruct (String.eqb k' k) eqn:E.
  - apply String.eqb_eq in E. intros [= <-]. subst. now left.
  - intros Hd. right. now apply IH.
Qed.

Lemma dict_get_known {V} (d : list (string * V)) (k : string) :
  In k (map fst d) -> exists v, dict_get d k = inr v.
Proof.
  intros Hin. destruct (dict_get d k) as [e|v] eqn:E.
  - apply dict_get_inl in E. tauto.
  - now exists v.
Qed.

(** The comprehension [[field_mapping[field] for field in fields]] fails on
    the first name that is not a key. *)
Lemma mapped_fields_unknown {V} (d : list (string * V)) (fields : list string)
    (f : string) :
  In f fields -> ~ In f (map fst d) ->
  exists f', In f' fields /\ ~ In f' (map fst d) /\
             map_result (dict_get d) fields = inl (KeyError f').
Proof.
  induction fields as [|g fields IH]; intros Hin Hn; [contradiction|].
  cbn [map_result].
  destruct (dict_get d g) as [e|v] eqn:E.
  - apply dict_get_inl in E. destruct E as [-> Hg].
    exists g. split; [now left|]. split; [assumption | reflexivity].
  - destruct Hin as [->|Hin].
    + apply dict_get_inr in E. exfalso. apply Hn.
      change f with (fst (f, v)). now apply in_map.
    + destruct (IH Hin Hn) as [f' [Hf' [Hn' Hm]]].
      exists f'. split; [now right|]. split; [assumption|].
      cbn [rbind]. now rewrite Hm.
Qed.

(** The name it fails on is the first one that is not a key: every name
    before it is a key. *)
Lemma mapped_fields_first_unknown {V} (d : list (string * V))
    (fields : list string) (f : string) :
  In f fields -> ~ In f (map fst d) ->
  exists known f' rest,
    fields = known ++ f' :: rest /\
    Forall (fun g => In g (map fst d)) known /\
    ~ In f' (map fst d) /\
    map_result (dict_get d) fields = inl (KeyError f').
Proof.
  induction fields as [|g fields IH]; intros Hin Hn; [contradiction|].
  cbn [map_result].
  destruct (dict_get d g) as [e|v] eqn:E.
  - apply dict_get_inl in E. destruct E as [-> Hg].
    exists [], g, fields. split; [reflexivity|]. split; [constructor|].
    split; [assumption | reflexivity].
  - assert (Hg : In g (map fst d)).
    { apply dict_get_inr in E. change g with (fst (g, v)). now apply in_map. }
    destruct Hin as [->|Hin]; [contradiction|].
    destruct (IH Hin Hn) as [known [f' [rest [-> [Hk [Hn' Hm]]]]]].
    exists (g :: known), f', rest. split; [reflexivity|].
    split; [now constructor|]. split; [assumption|].
    cbn [rbind]. now rewrite Hm.
Qed.

Lemma mapped_fields_known {V} (d : list (string * V)) (fields : list string) :
  Forall (fun f => In f (map fst d)) fields ->
  exists mapped, map_result (dict_get d) fields = inr mapped.
Proof.
  induction 1 as [|f fields Hf _ [mapped IH]].
  - now exists [].
  - destruct (dict_get_known d f Hf) as [v Hv].
    exists (v :: mapped). cbn [map_result]. now rewrite Hv, IH.
Qed.

(** ** The runs of the batch fetchers, branch by branch *)

Lemma run_get_prices_parallel `{Quicksort} (self : TushareDataHandler)
    (stock_list fields : list string) :
  get_prices_from_tushare_parallel self stock_list fields =
  match map_result (dict_get field_mapping) fields with
  | inl e => ([], inl e)
  | inr mapped_fields =>
      let asked := [Print MsgStartPrices;
                    Remote Daily (join "," stock_list) (start_date self)
                      (end_date self) []] in
      match daily (pro self) (join "," stock_list) (start_date self)
              (end_date self) with
      | Failed => (asked, inl RemoteError)
      | Returned df_all =>
          if empty df_all then (asked ++ [Print MsgNoData], inr None)
          else (asked ++ [Print MsgDone],
                (new_df <-- reshape_prices df_all fields mapped_fields ;;
                 inr (Some new_df))%result)
      end
  end.
Proof.
  unfold get_prices_from_tushare_parallel, call_daily.
  destruct (map_result (dict_get field_mapping) fields) as [e|mapped];
    [reflexivity|].
  cbn [lift bind emit print app].
  destruct (daily _ _ _ _) as [|df]; [reflexivity|].
  cbn [of_response]. destruct (empty df); reflexivity.
Qed.

Lemma run_get_factors_parallel `{Quicksort} (self : TushareDataHandler)
    (stock_list factors : list string) :
  get_factors_from_tushare_parallel self stock_list factors =
  let factors_with_date := factors ++ ["trade_date"; "ts_code"] in
  let asked := [Print MsgStartFactors;
                Remote DailyBasic (join "," stock_list) (start_date self)
                  (end_date self) factors_with_date] in
  match daily_basic (pro self) (join "," stock_list) (start_date self)
          (end_date self) factors_with_date with
  | Failed => (asked, inl RemoteError)
  | Returned df_all =>
      if empty df_all then (asked ++ [Print MsgNoData], inr None)
      else (asked ++ [Print MsgDone],
            (new_df <-- reshape_factors df_all factors ;;
             inr (Some new_df))%result)
  end.
Proof.
  unfold get_factors_from_tushare_parallel, call_daily_basic.
  cbv zeta. cbn [lift bind emit print app].
  destruct (daily_basic _ _ _ _ _) as [|df]; [reflexivity|].
  cbn [of_response]. destruct (empty df); reflexivity.
Qed.

(** ** Unknown field names *)

Lemma bind_emit {B} (ev : event) (k : unit -> M B) :
  bind (emit ev) k = (ev :: trace (k tt), outcome (k tt)).
Proof. simpl. destruct (k tt); reflexivity. Qed.

Lemma fetch_daily_basic_head (self : TushareDataHandler) (q : number)
    (fields : list string) (stock : string) (rest : list string) :
  exists t,
    trace (fetch_daily_basic self q fields (stock :: rest)) =
    Remote DailyBasic stock (start_date self) (end_date self) fields :: t.
Proof.
  cbn [fetch_daily_basic]. unfold call_daily_basic.
  rewrite trace_bind, bind_emit. cbn [trace fst app].
  eexists. reflexivity.
Qed.

Lemma factors_run_head `{Quicksort} (self : TushareDataHandler)
    (stock : string) (rest factors : list string) (q : number) :
  exists t r,
    get_factors_from_tushare self (stock :: rest) factors q =
    (Print MsgStartFactors
       :: Remote DailyBasic stock (start_date self) (end_date self)
            (factors ++ ["trade_date"]) :: t, r).
Proof.
  unfold get_factors_from_tushare. cbv zeta. unfold print at 1.
  rewrite bind_emit, trace_bind.
  destruct (fetch_daily_basic_head self q (factors ++ ["trade_date"])
              stock rest) as [t Ht].
  rewrite Ht. cbn [app]. eexists. eexists. reflexivity.
Qed.

(** C6, as amended: when the field list holds a name that is not a key of
    [field_mapping], the two price fetchers raise [KeyError] for the first
    such name of the list -- every name before it is a key -- with an empty
    trace: no remote call, no print, no sleep.  The factor fetchers have no
    mapping to check against: with the same list as factors they send the
    request, the names included. *)
Theorem unknown_price_field_raises_before_any_call `{Quicksort}
    (self : TushareDataHandler) (stock_list fields : list string) (q : number)
    (f : string) :
  In f fields -> ~ In f mapping_keys ->
  (exists known f' rest,
     fields = known ++ f' :: rest /\
     Forall (fun g => In g mapping_keys) known /\
     ~ In f' mapping_keys /\
     get_prices_from_tushare self stock_list fields q
       = ([], inl (KeyError f')) /\
     get_prices_from_tushare_parallel self stock_list fields
       = ([], inl (KeyError f'))) /\
  (exists t r,
     get_factors_from_tushare_parallel self stock_list fields =
     (Print MsgStartFactors
        :: Remote DailyBasic (join "," stock_list) (start_date self)
             (end_date self) (fields ++ ["trade_date"; "ts_code"]) :: t, r)) /\
  (forall stock rest, stock_list = stock :: rest ->
   exists t r,
     get_factors_from_tushare self stock_list fields q =
     (Print MsgStartFactors
        :: Remote DailyBasic stock (start_date self) (end_date self)
             (fields ++ ["trade_date"]) :: t, r)).
Proof.
  intros Hin Hn. split; [|split].
  - destruct (mapped_fields_first_unknown field_mapping fields f Hin Hn)
      as [known [f' [rest [Hdec [Hk [Hn' Hm]]]]]].
    exists known, f', rest. split; [assumption|]. split; [assumption|].
    split; [assumption|]. split.
    + unfold get_prices_from_tushare. now rewrite Hm.
    + rewrite run_get_prices_parallel. now rewrite Hm.
  - rewrite run_get_factors_parallel. cbv zeta.
    destruct (daily_basic _ _ _ _ _) as [|df].
    + now eexists; eexists.
    + destruct (empty df); now eexists; eexists.
  - intros stock rest ->. apply factors_run_head.
Qed.

Lemma unknown_price_field_witness :
  get_prices_from_tushare (H := insertion_sort)
    (Examples.handler (Examples.no_data Examples.price_header))
    ["600000.SH"] ["close"; "no_such_field"; "open"; "bogus"] 0
  = ([], inl (KeyError "no_such_field")).
Proof.
  destruct (unknown_price_field_raises_before_any_call (H := insertion_sort)
              (Examples.handler (Examples.no_data Examples.price_header))
              ["600000.SH"] ["close"; "no_such_field"; "open"; "bogus"] 0
              "bogus")
    as [[known [f' [rest [Hdec [Hk [Hn [Hp _]]]]]]] _].
  - simpl. intuition.
  - unfold mapping_keys. simpl. intuition discriminate.
  - assert (Hf : f' = "no_such_field").
    { destruct known as [|k1 [|k2 known]].
      - injection Hdec as <- _. exfalso. apply Hn.
        unfold mapping_keys. simpl. intuition.
      - now injection Hdec as _ <- _.
      - injection Hdec as _ <- _. exfalso.
        inversion Hk as [|? ? _ Hk']; subst.
        inversion Hk' as [|? ? Hk2 _]; subst.
        unfold mapping_keys in Hk2. simpl in Hk2. intuition discriminate. }
    rewrite Hp, Hf. reflexivity.
Defined.

(** C6, as stated, fails for the factor fetchers: asked for a factor name
    that no mapping and no provider knows, [get_factors_from_tushare] sends
    the request with that name, and raises only afterwards, when it selects
    the column from the answers. *)
Lemma factor_fetcher_sends_unmapped_name :
  let run := get_factors_from_tushare (H := insertion_sort)
               (Examples.handler
                  (Examples.answering ["total_mv"]
                     [("600000.SH",
                       Examples.one_row ["total_mv"] "600000.SH")]))
               ["600000.SH"] ["no_such_factor"] 0 in
  ~ In "no_such_factor" mapping_keys /\
  ~ raises_before_any_call run /\
  run = ([Print MsgStartFactors;
          Remote DailyBasic "600000.SH" "20240101" "20240131"
            ["no_such_factor"; "trade_date"];
          Print MsgDone],
         inl (KeyError "no_such_factor")).
Proof.
  cbv zeta. split; [|split].
  - unfold mapping_keys. simpl. intuition discriminate.
  - intros [_ Hquiet]. vm_compute in Hquiet. discriminate.
  - vm_compute. reflexivity.
Qed.

(** ** The empty batch response *)








(** ** The empty symbol list *)

(** C10: with no symbol to fetch, both sequential fetchers end in an
    exception and return no table.  When every field is a key of
    [field_mapping] (always, for the factor fetcher, which has no mapping)
    the exception is the [ValueError] of [pd.concat] on an empty list,
    raised after the two progress messages and without any remote call. *)
Theorem empty_symbol_list_raises `{Quicksort} (self : TushareDataHandler)
    (fields : list string) (q : number) :
  (exists e, outcome (get_prices_from_tushare self [] fields q) = inl e) /\
  (Forall (fun f => In f mapping_keys) fields ->
   get_prices_from_tushare self [] fields q =
   ([Print MsgStartPrices; Print MsgDone],
    inl (ValueError NoObjectsToConcatenate))) /\
  get_factors_from_tushare self [] fields q =
  ([Print MsgStartFactors; Print MsgDone],
   inl (ValueError NoObjectsToConcatenate)).
Proof.
  split; [|split].
  - unfold get_prices_from_tushare.
    destruct (map_result (dict_get field_mapping) fields) as [e|mapped].
    + now exists e.
    + now exists (ValueError NoObjectsToConcatenate).
  - intros Hall. unfold get_prices_from_tushare.
    destruct (mapped_fields_known field_mapping fields Hall) as [mapped Hm].
    now rewrite Hm.
  - reflexivity.
Qed.

Lemma empty_symbol_list_raises_witness :
  get_prices_from_tushare (H := insertion_sort)
    (Examples.handler (Examples.no_data Examples.price_header))
    [] ["close"; "vol"] 0 =
  ([Print MsgStartPrices; Print MsgDone],
   inl (ValueError NoObjectsToConcatenate)).
Proof.
  apply (empty_symbol_list_raises (H := insertion_sort)
           (Examples.handler (Examples.no_data Examples.price_header))
           ["close"; "vol"] 0).
  unfold mapping_keys. repeat constructor; simpl; tauto.
Defined.

(** ** Rows ascending by date *)

Lemma monotonic_sorted (l : list Z) :
  is_monotonic_increasing l = true -> Sorted Z.le l.
Proof.
  induction l as [|x l IH]; intros Hm; [constructor|].
  destruct l as [|y l].
  - constructor; constructor.
  - cbn [is_monotonic_increasing] in Hm.
    apply andb_true_iff in Hm. destruct Hm as [Hxy Hm].
    constructor; [now apply IH|].
    constructor. now apply Z.leb_le.
Qed.

Lemma sorted_map_key {A} (key : A -> Z) (l : list A) :
  StronglySorted (key_le key) l -> Sorted Z.le (map key l).
Proof.
  intros Hs. apply StronglySorted_Sorted.
  induction Hs as [|x l Hs IH Hall]; simpl; constructor.
  - exact IH.
  - rewrite Forall_map. exact Hall.
Qed.

Lemma sort_index_sorted `{Quicksort} (w : wide) :
  Sorted Z.le (windex (sort_index w)).
Proof.
  unfold sort_index.
  destruct (is_monotonic_increasing (windex w)) eqn:E.
  - now apply monotonic_sorted.
  - unfold windex. cbn [wrows]. apply sorted_map_key, sort_by_sorted.
Qed.

Lemma sorted_adjacent (l : list Z) :
  Sorted Z.le l ->
  forall i d1 d2,
    nth_error l i = Some d1 -> nth_error l (S i) = Some d2 -> d1 <= d2.
Proof.
  induction 1 as [|x l Hs IH Hhd]; intros i d1 d2 H1 H2.
  - destruct i; discriminate.
  - destruct i as [|i].
    + cbn in H1, H2. injection H1 as <-.
      destruct l as [|y l]; [discriminate|].
      cbn in H2. injection H2 as <-.
      now inversion Hhd.
    + cbn in H1. change (nth_error l (S i) = Some d2) in H2.
      now apply (IH i).
Qed.






(** ** The columns of the wide table *)

Lemma key_eqb_eq (a b : string * string) : key_eqb a b = true <-> a = b.
Proof.
  destruct a as [a1 a2], b as [b1 b2]. unfold key_eqb. cbn [fst snd].
  rewrite andb_true_iff, !String.eqb_eq. split.
  - intros [-> ->]. reflexivity.
  - intros [= -> ->]. split; reflexivity.
Qed.

Lemma key_eqb_sym (a b : string * string) : key_eqb a b = key_eqb b a.
Proof.
  unfold key_eqb. now rewrite (String.eqb_sym (fst a)), (String.eqb_sym (snd a)).
Qed.

Lemma existsb_key_In (k : string * string) (ks : list (string * string)) :
  existsb (key_eqb k) ks = true <-> In k ks.
Proof.
  rewrite existsb_exists. split.
  - intros [x [Hin Heq]]. apply key_eqb_eq in Heq. now subst.
  - intros Hin. exists k. split; [assumption | now apply key_eqb_eq].
Qed.

Lemma dict_set_keys {V} (d : list ((string * string) * V))
    (k : string * string) (v : V) :
  map fst (dict_set d k v) = add_key (map fst d) k.
Proof.
  unfold add_key. induction d as [|[k' v'] d IH]; [reflexivity|].
  cbn [dict_set map fst existsb].
  rewrite (key_eqb_sym k k').
  destruct (key_eqb k' k); [reflexivity|].
  cbn [map fst orb]. rewrite IH.
  destruct (existsb (key_eqb k) (map fst d)); reflexivity.
Qed.

Lemma for_fields_keys (df : frame) (stock : string)
    (loop_fields : list string) :
  forall data data',
    for_fields df stock loop_fields data = inr data' ->
    map fst data' =
    fold_left add_key (map (pair stock) loop_fields) (map fst data).
Proof.
  induction loop_fields as [|f rest IH]; intros data data' Hf.
  - injection Hf as <-. reflexivity.
  - cbn [for_fields] in Hf.
    destruct (loc df stock f) as [e|s]; [discriminate|].
    cbn [rbind] in Hf. apply IH in Hf. rewrite Hf, dict_set_keys.
    reflexivity.
Qed.

Lemma for_stocks_keys (df : frame) (loop_fields : list string)
    (stocks : list string) :
  forall data data',
    for_stocks df stocks loop_fields data = inr data' ->
    map fst data' =
    fold_left add_key
      (flat_map (fun stock => map (pair stock) loop_fields) stocks)
      (map fst data).
Proof.
  induction stocks as [|stock rest IH]; intros data data' Hs.
  - injection Hs as <-. reflexivity.
  - cbn [for_stocks] in Hs.
    destruct (for_fields df stock loop_fields data) as [e|data1] eqn:E;
      [discriminate|].
    cbn [rbind] in Hs. apply IH in Hs. apply for_fields_keys in E.
    rewrite Hs, E. cbn [flat_map]. now rewrite fold_left_app.
Qed.

Lemma add_key_fresh (ks : list (string * string)) (k : string * string) :
  ~ In k ks -> add_key ks k = ks ++ [k].
Proof.
  intros Hn. unfold add_key.
  destruct (existsb (key_eqb k) ks) eqn:E; [|reflexivity].
  apply existsb_key_In in E. contradiction.
Qed.

Lemma add_keys_nodup (l ks : list (string * string)) :
  NoDup (ks ++ l) -> fold_left add_key l ks = ks ++ l.
Proof.
  revert ks. induction l as [|k l IH]; intros ks Hnd.
  - symmetry. apply app_nil_r.
  - cbn [fold_left]. rewrite add_key_fresh.
    + rewrite IH; rewrite <- app_assoc; [reflexivity | exact Hnd].
    + apply NoDup_remove_2 in Hnd. intros Hin. apply Hnd.
      apply in_or_app. now left.
Qed.

Lemma In_add_keys (l ks : list (string * string)) (k : string * string) :
  In k (fold_left add_key l ks) <-> In k ks \/ In k l.
Proof.
  revert ks. induction l as [|k' l IH]; intros ks; cbn [fold_left].
  - simpl. tauto.
  - rewrite IH. unfold add_key.
    destruct (existsb (key_eqb k') ks) eqn:E.
    + apply existsb_key_In in E. simpl. intuition (subst; auto).
    + rewrite in_app_iff. simpl. tauto.
Qed.

Lemma In_unique (s : string) (l : list string) : In s (unique l) <-> In s l.
Proof.
  induction l as [|x l IH]; [reflexivity|].
  cbn [unique]. simpl. rewrite filter_In, IH.
  destruct (String.eqb s x) eqn:E.
  - apply String.eqb_eq in E. subst. intuition.
  - apply String.eqb_neq in E. intuition congruence.
Qed.

Lemma NoDup_unique (l : list string) : NoDup (unique l).
Proof.
  induction l as [|x l IH]; [constructor|].
  cbn [unique]. constructor.
  - rewrite filter_In. intros [_ Hx]. now rewrite String.eqb_refl in Hx.
  - now apply NoDup_filter.
Qed.

(** First-seen order: reading one more label appends it when it is new. *)
Lemma unique_snoc (l : list string) (x : string) :
  unique (l ++ [x]) = if mem x l then unique l else unique l ++ [x].
Proof.
  induction l as [|y l IH]; [reflexivity|].
  cbn [app unique mem existsb]. rewrite IH.
  destruct (String.eqb x y) eqn:E; cbn [orb].
  - apply String.eqb_eq in E. subst y.
    destruct (mem x l); [reflexivity|].
    rewrite filter_app. cbn [filter]. rewrite String.eqb_refl.
    cbn [negb]. now rewrite app_nil_r.
  - fold (mem x l). destruct (mem x l); [reflexivity|].
    rewrite filter_app. cbn [filter]. rewrite E. reflexivity.
Qed.

Lemma In_symbols (df : frame) (s : string) :
  In s (symbols df) <-> exists r, In r (rows df) /\ ts_code r = s.
Proof.
  unfold symbols. rewrite In_unique, in_map_iff.
  split; intros [r [H1 H2]]; exists r; tauto.
Qed.

Lemma NoDup_keys (stocks fields : list string) :
  NoDup stocks -> NoDup fields ->
  NoDup (flat_map (fun stock => map (pair stock) fields) stocks).
Proof.
  intros Hs Hf. induction Hs as [|s stocks Hn Hs IH]; [constructor|].
  cbn [flat_map]. apply NoDup_app.
  - apply Finite.Injective_map_NoDup; [|exact Hf].
    intros a b [= ->]. reflexivity.
  - exact IH.
  - intros k Hk1 Hk2. apply in_map_iff in Hk1. destruct Hk1 as [f [<- _]].
    apply in_flat_map in Hk2. destruct Hk2 as [s' [Hs' Hk2]].
    apply in_map_iff in Hk2. destruct Hk2 as [f' [[= -> _] _]].
    contradiction.
Qed.

Lemma dict_set_selected (df : frame) (d : list ((string * string) * selection))
    (k : string * string) (v : selection) :
  Forall (selected df) d -> selected df (k, v) ->
  Forall (selected df) (dict_set d k v).
Proof.
  intros Hd Hk. induction Hd as [|[k' v'] d Hkv Hd IH]; cbn [dict_set].
  - constructor; [exact Hk | constructor].
  - destruct (key_eqb k' k) eqn:E.
    + apply key_eqb_eq in E. subst k'. constructor; assumption.
    + constructor; assumption.
Qed.

Lemma for_fields_selected (df : frame) (stock : string)
    (loop_fields : list string) :
  forall data data',
    Forall (selected df) data ->
    for_fields df stock loop_fields data = inr data' ->
    Forall (selected df) data'.
Proof.
  induction loop_fields as [|f rest IH]; intros data data' Hd Hf.
  - now injection Hf as <-.
  - cbn [for_fields] in Hf.
    destruct (loc df stock f) as [e|s] eqn:E; [discriminate|].
    cbn [rbind] in Hf. eapply IH; [|exact Hf].
    apply dict_set_selected; assumption.
Qed.

Lemma for_stocks_selected (df : frame) (loop_fields stocks : list string) :
  forall data data',
    Forall (selected df) data ->
    for_stocks df stocks loop_fields data = inr data' ->
    Forall (selected df) data'.
Proof.
  induction stocks as [|stock rest IH]; intros data data' Hd Hs.
  - now injection Hs as <-.
  - cbn [for_stocks] in Hs.
    destruct (for_fields df stock loop_fields data) as [e|data1] eqn:E;
      [discriminate|].
    cbn [rbind] in Hs. eapply IH; [|exact Hs].
    eapply for_fields_selected; eassumption.
Qed.

Lemma map_result_In {A B} (f : A -> result B) (l : list A) (bs : list B)
    (a : A) :
  map_result f l = inr bs -> In a l -> exists b, f a = inr b /\ In b bs.
Proof.
  revert bs. induction l as [|x l IH]; intros bs Hm Hin; [contradiction|].
  cbn [map_result] in Hm.
  destruct (f x) as [e|b] eqn:E; [discriminate|]. cbn [rbind] in Hm.
  destruct (map_result f l) as [e|bs'] eqn:E'; [discriminate|].
  cbn [rbind] in Hm. injection Hm as <-.
  destruct Hin as [->|Hin].
  - exists b. split; [assumption | now left].
  - destruct (IH bs' eq_refl Hin) as [b' [Hb' Hin']].
    exists b'. split; [assumption | now right].
Qed.

Lemma loc_one_column (df : frame) (stock field : string) (s : series) :
  loc df stock field = inr (OneColumn s) ->
  count_occ string_dec (columns df) field = 1%nat /\
  s = map (fun r => (trade_date r, cell r field))
          (filter (of_symbol stock) (rows df)).
Proof.
  unfold loc.
  destruct (count_occ string_dec (columns df) field) as [|[|n]];
    [discriminate| |discriminate].
  intros [= <-]. split; reflexivity.
Qed.

Lemma DataFrame_columns (data : list ((string * string) * selection))
    (w : wide) :
  DataFrame data = inr w -> wcolumns w = map fst data.
Proof.
  unfold DataFrame. destruct data as [|kv data]; [now intros [= <-]|].
  destruct (map_result as_series _) as [e|ss]; [discriminate|].
  cbn [rbind].
  destruct (map_result (reindex _) ss) as [e|cols]; [discriminate|].
  cbn [rbind]. now intros [= <-].
Qed.

Lemma DataFrame_one_column (data : list ((string * string) * selection))
    (w : wide) (kv : (string * string) * selection) :
  DataFrame data = inr w -> In kv data -> exists s, snd kv = OneColumn s.
Proof.
  unfold DataFrame. destruct data as [|kv0 data]; [contradiction|].
  destruct (map_result as_series _) as [e|ss] eqn:E; [discriminate|].
  intros _ Hin.
  destruct (map_result_In as_series _ ss (snd kv) E) as [s [Hs _]].
  - now apply in_map.
  - destruct (snd kv) as [s'|n]; [now exists s' | discriminate].
Qed.

Lemma sort_index_columns `{Quicksort} (w : wide) :
  wcolumns (sort_index w) = wcolumns w.
Proof.
  unfold sort_index. now destruct (is_monotonic_increasing (windex w)).
Qed.

Lemma new_structure_df_columns `{Quicksort} (df : frame)
    (loop_fields : list string) (w : wide) :
  columns df = loop_fields ->
  new_structure_df df loop_fields = inr w ->
  wcolumns w =
  flat_map (fun stock => map (pair stock) loop_fields) (symbols df).
Proof.
  intros Hcols Hw. unfold new_structure_df in Hw.
  destruct (new_structure_data df loop_fields) as [e|data] eqn:Ed;
    [discriminate|].
  cbn [rbind] in Hw.
  destruct (DataFrame data) as [e|new_df] eqn:Ef; [discriminate|].
  cbn [rbind] in Hw. injection Hw as <-.
  rewrite sort_index_columns, (DataFrame_columns _ _ Ef).
  unfold new_structure_data in Ed.
  pose proof (for_stocks_keys _ _ _ _ _ Ed) as Hkeys.
  pose proof (for_stocks_selected _ _ _ _ _ (Forall_nil _) Ed) as Hsel.
  cbn [map] in Hkeys. rewrite Hkeys.
  destruct (symbols df) as [|s0 others] eqn:Es; [reflexivity|].
  rewrite <- Es in *.
  apply (add_keys_nodup _ []). cbn [app].
  apply NoDup_keys; [apply NoDup_unique|].
  apply NoDup_count_occ' with (decA := string_dec). intros f Hf.
  assert (Hk : In (s0, f) (map fst data)).
  { rewrite Hkeys. apply In_add_keys. right.
    apply in_flat_map. exists s0. split; [rewrite Es; now left|].
    now apply in_map. }
  apply in_map_iff in Hk. destruct Hk as [[k v] [Hk Hin]].
  cbn [fst] in Hk. subst k.
  rewrite Forall_forall in Hsel. specialize (Hsel _ Hin).
  unfold selected in Hsel. cbn [fst snd] in Hsel.
  destruct (DataFrame_one_column _ _ _ Ef Hin) as [s Hs].
  cbn [snd] in Hs. subst v.
  apply loc_one_column in Hsel. destruct Hsel as [Hc _].
  now rewrite <- Hcols.
Qed.

Lemma getitem_inr (df : frame) (fields : list string) (df' : frame) :
  getitem df fields = inr df' ->
  columns df' = fields /\
  rows df' = map (fun r => mkRow (trade_date r) (ts_code r)
                             (map (fun f => (f, cell r f)) fields))
                 (rows df) /\
  Forall (fun f => In f (columns df)) fields.
Proof.
  unfold getitem.
  destruct (find _ fields) as [f|] eqn:E; [discriminate|].
  intros [= <-]. split; [reflexivity|]. split; [reflexivity|].
  apply Forall_forall. intros f Hf.
  pose proof (find_none _ _ E f Hf) as Hn. cbn in Hn.
  apply negb_false_iff in Hn. now apply mem_In.
Qed.

Lemma symbols_map (g : row -> row) (l : list row) (cols cols' : list string) :
  (forall r, ts_code (g r) = ts_code r) ->
  symbols (mkFrame cols (map g l)) = symbols (mkFrame cols' l).
Proof.
  intros Hg. unfold symbols. cbn [rows]. rewrite map_map.
  f_equal. apply map_ext. exact Hg.
Qed.


Lemma mapped_fields_rename (mapping : list (string * string))
    (fields mapped_fields : list string) :
  map_result (dict_get mapping) fields = inr mapped_fields ->
  map (rename_label mapping) fields = mapped_fields.
Proof.
  revert mapped_fields. induction fields as [|f fields IH];
    intros mapped Hm.
  - now injection Hm as <-.
  - cbn [map_result] in Hm. cbn [map].
    destruct (dict_get mapping f) as [e|c] eqn:E; [discriminate|].
    cbn [rbind] in Hm.
    destruct (map_result (dict_get mapping) fields) as [e|cs];
      [discriminate|].
    cbn [rbind] in Hm. injection Hm as <-.
    f_equal; [unfold rename_label; now rewrite E | now apply IH].
Qed.

Lemma symbols_rename (mapping : list (string * string)) (df : frame) :
  symbols (rename mapping df) = symbols df.
Proof.
  unfold rename. destruct df as [cols rs]. cbn [columns rows].
  now apply symbols_map.
Qed.

Lemma symbols_getitem (df df' : frame) (fields : list string) :
  getitem df fields = inr df' -> symbols df' = symbols df.
Proof.
  intros Hg. apply getitem_inr in Hg. destruct Hg as [Hc [Hr _]].
  destruct df' as [cols' rs'], df as [cols rs]. cbn [columns rows] in *.
  subst. now apply symbols_map.
Qed.

(** C4: the column keys of the wide table are the pairs (symbol, canonical
    field), symbol-major, over the symbols of the long table and the
    requested fields in the caller's order; nothing else and nothing less.
    The symbols are those with at least one row, each once, in the order of
    their first row.  The factor fetchers rename nothing, so their canonical
    field is the factor itself. *)
Theorem wide_columns_are_symbols_times_fields `{Quicksort} (long : frame)
    (fields : list string) (w : wide) :
  (forall mapped_fields,
     map_result (dict_get field_mapping) fields = inr mapped_fields ->
     reshape_prices long fields mapped_fields = inr w ->
     wcolumns w =
     flat_map (fun s => map (fun f => (s, canonical f)) fields)
              (symbols long)) /\
  (reshape_factors long fields = inr w ->
   wcolumns w =
   flat_map (fun s => map (fun f => (s, f)) fields) (symbols long)) /\
  (forall s, In s (symbols long) <->
             exists r, In r (rows long) /\ ts_code r = s) /\
  NoDup (symbols long) /\
  (forall r,
     symbols (mkFrame (columns long) (rows long ++ [r])) =
     if mem (ts_code r) (map ts_code (rows long)) then symbols long
     else symbols long ++ [ts_code r]).
Proof.
  split; [|split; [|split; [|split]]].
  - intros mapped Hm Hw. unfold reshape_prices in Hw.
    destruct (getitem long fields) as [e|df] eqn:Eg; [discriminate|].
    cbn [rbind] in Hw.
    pose proof (getitem_inr _ _ _ Eg) as [Hc _].
    apply new_structure_df_columns in Hw.
    + rewrite Hw, symbols_rename, (symbols_getitem _ _ _ Eg).
      rewrite <- (mapped_fields_rename _ _ _ Hm).
      apply flat_map_ext. intros s. now rewrite map_map.
    + unfold rename. cbn [columns]. rewrite Hc.
      now apply mapped_fields_rename.
  - intros Hw. unfold reshape_factors in Hw.
    destruct (getitem long fields) as [e|df] eqn:Eg; [discriminate|].
    cbn [rbind] in Hw.
    pose proof (getitem_inr _ _ _ Eg) as [Hc _].
    apply new_structure_df_columns in Hw; [|exact Hc].
    now rewrite Hw, (symbols_getitem _ _ _ Eg).
  - apply In_symbols.
  - apply NoDup_unique.
  - intros r. unfold symbols. cbn [rows]. rewrite map_app. cbn [map].
    apply unique_snoc.
Qed.

Lemma wide_columns_witness :
  wcolumns Examples.scenario_a_wide =
  flat_map (fun s => map (fun f => (s, canonical f)) ["close"])
           (symbols Examples.aaa_bbb).
Proof.
  destruct (wide_columns_are_symbols_times_fields (H := insertion_sort)
              Examples.aaa_bbb ["close"] Examples.scenario_a_wide)
    as [Hp _].
  apply (Hp ["Close"]); vm_compute; reflexivity.
Defined.

(** ** What the reshaping step reads of a long table *)





Lemma filter_of_symbol_map (g : row -> row) (s : string) (l : list row) :
  (forall r, ts_code (g r) = ts_code r) ->
  filter (of_symbol s) (map g l) = map g (filter (of_symbol s) l).
Proof.
  intros Hg. induction l as [|r l IH]; [reflexivity|].
  cbn [map filter]. rewrite IH.
  replace (of_symbol s (g r)) with (of_symbol s r)
    by (unfold of_symbol; now rewrite Hg).
  now destruct (of_symbol s r).
Qed.




(** ** A symbol without rows in the sequential fetch *)











(** ** Batch fetch against sequential fetch *)




(** C1 also fails on column order: in Scenario A the provider answers the
    combined request "BBB,AAA" with every row of both symbols, newest date
    first; AAA is then the first symbol seen in the batch table and BBB the
    first in the sequential one. *)
Lemma batch_differs_in_column_order :
  let sequential :=
    outcome (get_prices_from_tushare (H := insertion_sort)
               Examples.scenario_a ["BBB"; "AAA"] ["close"] 0) in
  let batch :=
    outcome (get_prices_from_tushare_parallel (H := insertion_sort)
               Examples.scenario_a ["BBB"; "AAA"] ["close"]) in
  (exists w, sequential = inr w /\
             wcolumns w = [("BBB", "Close"); ("AAA", "Close")]) /\
  (exists w, batch = inr (Some w) /\
             wcolumns w = [("AAA", "Close"); ("BBB", "Close")]) /\
  ~ identical_tables sequential batch.
Proof.
  cbv zeta. split; [|split].
  - eexists. split; [vm_compute; reflexivity | reflexivity].
  - eexists. split; [vm_compute; reflexivity | reflexivity].
  - intros [w [Hs Hb]]. vm_compute in Hs, Hb.
    injection Hs as <-. discriminate.
Qed.

(** ** Tables without a repeated (date, symbol) pair *)

Lemma list_eqb_eq (l1 l2 : list Z) : list_eqb Z.eqb l1 l2 = true -> l1 = l2.
Proof.
  revert l2. induction l1 as [|x l1 IH]; intros [|y l2] He;
    try discriminate; [reflexivity|].
  cbn [list_eqb] in He. apply andb_true_iff in He. destruct He as [Hx Hl].
  apply Z.eqb_eq in Hx. subst. f_equal. now apply IH.
Qed.

Lemma has_duplicates_NoDup (l : list Z) :
  NoDup l -> has_duplicates l = false.
Proof.
  induction 1 as [|x l Hn Hnd IH]; [reflexivity|].
  cbn [has_duplicates]. rewrite IH, orb_false_r.
  destruct (existsb (Z.eqb x) l) eqn:E; [|reflexivity].
  apply existsb_exists in E. destruct E as [y [Hy Hxy]].
  apply Z.eqb_eq in Hxy. subst y. contradiction.
Qed.

Lemma lookup_In (s : series) (d : Z) (v : float) :
  NoDup (map fst s) -> In (d, v) s -> lookup s d = v.
Proof.
  induction s as [|[d' v'] s IH]; intros Hnd Hin; [contradiction|].
  cbn [map fst] in Hnd. inversion Hnd as [|? ? Hn Hnd']; subst.
  cbn [lookup]. destruct Hin as [[= -> ->]|Hin].
  - now rewrite Z.eqb_refl.
  - destruct (d' =? d) eqn:E; [|now apply IH].
    apply Z.eqb_eq in E. subst d'. exfalso. apply Hn.
    change d with (fst (d, v)). now apply in_map.
Qed.

Lemma lookup_absent (s : series) (d : Z) :
  ~ In d (map fst s) -> lookup s d = Float64.nan.
Proof.
  induction s as [|[d' v'] s IH]; intros Hn; [reflexivity|].
  cbn [lookup]. destruct (d' =? d) eqn:E.
  - apply Z.eqb_eq in E. subst d'. exfalso. apply Hn. now left.
  - apply IH. intros Hin. apply Hn. now right.
Qed.


Lemma lookup_own_labels (s : series) :
  NoDup (map fst s) -> map (lookup s) (map fst s) = map snd s.
Proof.
  intros Hnd. rewrite map_map. apply map_ext_in. intros [d v] Hin.
  cbn [fst snd]. now apply lookup_In.
Qed.

(** Aligning a Series with distinct labels never fails: each label of the
    target index reads its value, or NaN. *)
Lemma reindex_nodup (index : list Z) (s : series) :
  NoDup (map fst s) -> reindex index s = inr (map (lookup s) index).
Proof.
  intros Hnd. unfold reindex.
  destruct (list_eqb Z.eqb (map fst s) index) eqn:E.
  - apply list_eqb_eq in E. subst index. now rewrite lookup_own_labels.
  - now rewrite has_duplicates_NoDup.
Qed.

Lemma assemble_lookup (f : series -> Z -> float) (ss : list series)
    (index : list Z) :
  assemble index (map (fun s => map (f s) index) ss) =
  map (fun d => (d, map (fun s => f s d) ss)) index.
Proof.
  induction index as [|d index IH]; [reflexivity|].
  cbn [assemble map]. f_equal.
  - f_equal. rewrite map_map. reflexivity.
  - rewrite map_map. cbn [tl]. exact IH.
Qed.

Lemma map_result_total {A B} (f : A -> result B) (g : A -> B) (l : list A) :
  (forall a, In a l -> f a = inr (g a)) -> map_result f l = inr (map g l).
Proof.
  induction l as [|a l IH]; intros Hf; [reflexivity|].
  cbn [map_result map]. rewrite (Hf a) by now left. cbn [rbind].
  rewrite IH; [reflexivity|]. intros a' Ha'. apply Hf. now right.
Qed.

Lemma remove_one_nodup (x : Z) (l : list Z) :
  NoDup l ->
  NoDup (remove_one x l) /\
  (forall d, In d (remove_one x l) <-> In d l /\ d <> x).
Proof.
  induction 1 as [|y l Hn Hnd [IH1 IH2]]; cbn [remove_one].
  - split; [constructor|]. simpl. tauto.
  - destruct (x =? y) eqn:E.
    + apply Z.eqb_eq in E. subst y. split; [assumption|].
      intros d. simpl. split.
      * intros Hd. split; [now right|]. intros ->. contradiction.
      * intros [[<-|Hd] Hne]; [contradiction | assumption].
    + apply Z.eqb_neq in E. split.
      * constructor; [|assumption]. rewrite IH2. tauto.
      * intros d. simpl. rewrite IH2. split.
        -- intros [<-|[Hd Hne]]; [split; [now left | congruence] | tauto].
        -- intros [[<-|Hd] Hne]; [now left | right; tauto].
Qed.

Lemma labels_beyond_nodup (self other : list Z) :
  NoDup other ->
  NoDup (labels_beyond self other) /\
  (forall d, In d (labels_beyond self other) <-> In d other /\ ~ In d self).
Proof.
  unfold labels_beyond. revert other.
  induction self as [|x self IH]; intros other Hnd; cbn [fold_left].
  - split; [assumption|]. simpl. tauto.
  - destruct (remove_one_nodup x other Hnd) as [Hnd' Hin'].
    destruct (IH _ Hnd') as [IH1 IH2]. split; [assumption|].
    intros d. rewrite IH2, Hin'. simpl. intuition congruence.
Qed.

Lemma index_union_nodup (self other : list Z) :
  NoDup self -> NoDup other ->
  NoDup (index_union self other) /\
  (forall d, In d (index_union self other) <-> In d self \/ In d other).
Proof.
  intros Hs Ho. unfold index_union.
  destruct other as [|o other]; [split; [assumption | simpl; tauto]|].
  destruct self as [|x self]; [split; [assumption | simpl; tauto]|].
  destruct (list_eqb Z.eqb (x :: self) (o :: other)) eqn:E.
  - apply list_eqb_eq in E. rewrite <- E. split; [assumption | tauto].
  - destruct (labels_beyond_nodup (x :: self) (o :: other) Ho) as [Hb1 Hb2].
    assert (Hnd : NoDup ((x :: self) ++ labels_beyond (x :: self) (o :: other))).
    { apply NoDup_app; [assumption..|].
      intros d Hd1 Hd2. apply Hb2 in Hd2. tauto. }
    pose proof (isort_by_perm (fun d : Z => d)
                  ((x :: self) ++ labels_beyond (x :: self) (o :: other)))
      as Hp.
    split.
    + eapply Permutation_NoDup; [apply Permutation_sym, Hp | exact Hnd].
    + intros d. split.
      * intros Hd. apply (Permutation_in _ Hp) in Hd.
        apply in_app_or in Hd. destruct Hd as [Hd|Hd]; [now left|].
        apply Hb2 in Hd. tauto.
      * intros Hd. apply (Permutation_in _ (Permutation_sym Hp)).
        apply in_or_app.
        destruct (in_dec Z.eq_dec d (x :: self)) as [Hin|Hn]; [now left|].
        right. apply Hb2. tauto.
Qed.

Lemma fold_index_union_nodup (others : list (list Z)) (first : list Z) :
  NoDup first -> Forall (@NoDup Z) others ->
  NoDup (fold_left index_union others first) /\
  (forall d, In d (fold_left index_union others first) <->
             In d first \/ exists i, In i others /\ In d i).
Proof.
  revert first. induction others as [|o others IH]; intros first Hf Ho;
    cbn [fold_left].
  - split; [assumption|]. intros d. split; [tauto|].
    intros [Hd|[i [[] _]]]. exact Hd.
  - inversion Ho as [|? ? Ho1 Ho2]; subst.
    destruct (index_union_nodup first o Hf Ho1) as [Hu1 Hu2].
    destruct (IH _ Hu1 Ho2) as [IH1 IH2]. split; [assumption|].
    intros d. rewrite IH2, Hu2. split.
    + intros [[Hd|Hd]|[i [Hi Hd]]].
      * now left.
      * right. exists o. split; [now left | assumption].
      * right. exists i. split; [now right | assumption].
    + intros [Hd|[i [[<-|Hi] Hd]]].
      * left. now left.
      * left. now right.
      * right. exists i. split; assumption.
Qed.

(** The union of indexes without repeated labels has no repeated label and
    holds exactly the labels of its members. *)
Lemma union_indexes_nodup (indexes : list (list Z)) :
  Forall (@NoDup Z) indexes ->
  NoDup (union_indexes indexes) /\
  (forall d, In d (union_indexes indexes) <->
             exists i, In i indexes /\ In d i).
Proof.
  intros Hall. destruct indexes as [|i others]; cbn [union_indexes].
  - split; [constructor|]. intros d. split; [contradiction|].
    intros [i [[] _]].
  - inversion Hall as [|? ? Hi Ho]; subst.
    destruct (fold_index_union_nodup others i Hi Ho) as [H1 H2].
    split; [assumption|]. intros d. rewrite H2. split.
    + intros [Hd|[j [Hj Hd]]].
      * exists i. split; [now left | assumption].
      * exists j. split; [now right | assumption].
    + intros [j [[<-|Hj] Hd]]; [now left|].
      right. exists j. split; assumption.
Qed.

(** *** The same rows in another order *)


Lemma related_eq {A} (r1 r2 : result A) : related eq r1 r2 -> r1 = r2.
Proof. destruct r1, r2; cbn; congruence || contradiction. Qed.





Lemma sorted_unmap {A} (key : A -> Z) (l : list A) :
  Sorted Z.le (map key l) -> StronglySorted (key_le key) l.
Proof.
  intros Hs. apply Sorted_StronglySorted.
  - intros x y z. unfold key_le. lia.
  - induction l as [|x l IH]; [constructor|].
    cbn [map] in Hs. inversion Hs as [|? ? Hs' Hhd]; subst.
    constructor; [now apply IH|].
    destruct l as [|y l]; constructor.
    cbn [map] in Hhd. now inversion Hhd.
Qed.

(** What [sort_index] returns: the same columns, the same rows, ordered by
    label. *)
Lemma sort_index_spec `{Quicksort} (w : wide) :
  exists rs,
    sort_index w = mkWide (wcolumns w) rs /\
    Permutation rs (wrows w) /\
    StronglySorted (key_le fst) rs.
Proof.
  unfold sort_index.
  destruct (is_monotonic_increasing (windex w)) eqn:E.
  - exists (wrows w). split; [now destruct w|].
    split; [apply Permutation_refl|].
    now apply sorted_unmap, monotonic_sorted.
  - exists (sort_by fst (wrows w)). split; [reflexivity|].
    split; [apply sort_by_perm | apply sort_by_sorted].
Qed.







(** The table built from Series without repeated labels: one row per label
    of the union, each column read by label. *)
Lemma DataFrame_nodup (data : list ((string * string) * selection))
    (ss : list series) :
  data <> [] ->
  map_result as_series (map snd data) = inr ss ->
  Forall (@NoDup Z) (map (map fst) ss) ->
  DataFrame data =
  inr (mkWide (map fst data)
         (map (fun d => (d, map (fun s => lookup s d) ss))
              (union_indexes (map (map fst) ss)))).
Proof.
  intros Hne Hss Hnd. unfold DataFrame.
  destruct data as [|kv data]; [contradiction|].
  rewrite Hss. cbn [rbind].
  rewrite (map_result_total _
             (fun s => map (lookup s) (union_indexes (map (map fst) ss)))).
  - cbn [rbind]. now rewrite assemble_lookup.
  - intros s Hs. apply reindex_nodup.
    rewrite Forall_forall in Hnd. apply Hnd. now apply in_map.
Qed.






Lemma no_repeated_pair_dates (l : list row) (s : string) :
  NoDup (map (fun r => (trade_date r, ts_code r)) l) ->
  NoDup (map trade_date (filter (of_symbol s) l)).
Proof.
  induction l as [|r l IH]; intros Hnd; [constructor|].
  cbn [map] in Hnd. inversion Hnd as [|? ? Hn Hnd']; subst.
  cbn [filter]. destruct (of_symbol s r) eqn:E; [|now apply IH].
  cbn [map]. constructor; [|now apply IH].
  intros Hin. apply Hn. apply in_map_iff in Hin.
  destruct Hin as [r' [Hd Hr']]. apply filter_In in Hr'.
  destruct Hr' as [Hr' Hs']. apply in_map_iff. exists r'.
  split; [|assumption].
  unfold of_symbol in E, Hs'. apply String.eqb_eq in E, Hs'. congruence.
Qed.









(** ** Repeated (date, symbol) rows *)

Lemma map_result_nth {A B} (f : A -> result B) (l : list A) (bs : list B)
    (j : nat) (a : A) :
  map_result f l = inr bs -> nth_error l j = Some a ->
  exists b, f a = inr b /\ nth_error bs j = Some b.
Proof.
  revert bs j. induction l as [|x l IH]; intros bs j Hm Hj;
    [destruct j; discriminate|].
  cbn [map_result] in Hm.
  destruct (f x) as [e|b] eqn:E; [discriminate|]. cbn [rbind] in Hm.
  destruct (map_result f l) as [e|bs'] eqn:E'; [discriminate|].
  cbn [rbind] in Hm. injection Hm as <-.
  destruct j as [|j]; cbn in Hj |- *.
  - injection Hj as <-. now exists b.
  - now apply (IH bs' j).
Qed.

Lemma zip_own (s : series) : List.combine (map fst s) (map snd s) = s.
Proof.
  induction s as [|[d v] s IH]; [reflexivity|]. cbn. now rewrite IH.
Qed.

(** Column [j] of an assembled table is the [j]-th list of values, label
    by label. *)
Lemma assemble_column (index : list Z) (cols : list (list float)) (j : nat)
    (col : list float) :
  nth_error cols j = Some col ->
  List.length col = List.length index ->
  map (fun row => (fst row, nth j (snd row) Float64.nan))
      (assemble index cols)
  = List.combine index col.
Proof.
  revert cols col. induction index as [|d index IH]; intros cols col Hj Hlen.
  - reflexivity.
  - destruct col as [|v col]; [discriminate|].
    cbn [assemble map List.combine fst snd]. f_equal.
    + f_equal. apply nth_error_nth.
      exact (map_nth_error (hd Float64.nan) j cols Hj).
    + apply IH.
      * exact (map_nth_error (@tl float) j cols Hj).
      * cbn in Hlen. lia.
Qed.

Lemma has_duplicates_not_NoDup (l : list Z) :
  has_duplicates l = true -> ~ NoDup l.
Proof.
  intros Hd Hnd. apply has_duplicates_NoDup in Hnd. congruence.
Qed.

(** A Series that repeats a label enters the table only as it is: the
    index of the table is its index and the column holds its values. *)
Lemma reindex_repeated (index : list Z) (s : series) (col : list float) :
  has_duplicates (map fst s) = true ->
  reindex index s = inr col ->
  index = map fst s /\ col = map snd s.
Proof.
  intros Hd. unfold reindex.
  destruct (list_eqb Z.eqb (map fst s) index) eqn:E.
  - apply list_eqb_eq in E. intros [= <-]. now split.
  - rewrite Hd. discriminate.
Qed.

Lemma new_structure_df_keeps_repeated `{Quicksort} (df : frame)
    (loop_fields : list string) (w : wide) (stock field : string) (j : nat) :
  new_structure_df df loop_fields = inr w ->
  has_duplicates (map trade_date (filter (of_symbol stock) (rows df))) = true ->
  nth_error (wcolumns w) j = Some (stock, field) ->
  Permutation (column_of w j)
    (map (fun r => (trade_date r, cell r field))
         (filter (of_symbol stock) (rows df))).
Proof.
  intros Hw Hdup Hj. unfold new_structure_df in Hw.
  destruct (new_structure_data df loop_fields) as [e|data] eqn:Ed;
    [discriminate|].
  cbn [rbind] in Hw.
  destruct (DataFrame data) as [e|new_df] eqn:Ef; [discriminate|].
  cbn [rbind] in Hw. injection Hw as <-.
  rewrite sort_index_columns, (DataFrame_columns _ _ Ef) in Hj.
  rewrite nth_error_map in Hj.
  destruct (nth_error data j) as [[k v]|] eqn:Ej; [|discriminate].
  cbn in Hj. injection Hj as ->.
  pose proof (for_stocks_selected _ _ _ _ _ (Forall_nil _) Ed) as Hsel.
  rewrite Forall_forall in Hsel.
  pose proof (Hsel _ (nth_error_In _ _ Ej)) as Hloc.
  unfold selected in Hloc. cbn [fst snd] in Hloc.
  unfold DataFrame in Ef.
  destruct data as [|kv0 data0] eqn:Edata; [destruct j; discriminate|].
  rewrite <- Edata in *. clear Edata kv0 data0.
  destruct (map_result as_series (map snd data)) as [e|ss] eqn:Ess;
    [discriminate|].
  cbn [rbind] in Ef.
  destruct (map_result (reindex _) ss) as [e|cols] eqn:Ecols; [discriminate|].
  cbn [rbind] in Ef. injection Ef as <-.
  destruct (map_result_nth as_series _ ss j v Ess) as [s [Hs Hjs]].
  { rewrite nth_error_map, Ej. reflexivity. }
  destruct v as [s'|n]; [|discriminate]. cbn in Hs. injection Hs as <-.
  apply loc_one_column in Hloc. destruct Hloc as [_ Hs'].
  destruct (map_result_nth _ _ cols j s' Ecols Hjs) as [col [Hcol Hjc]].
  apply reindex_repeated in Hcol.
  2:{ rewrite Hs', map_map. exact Hdup. }
  destruct Hcol as [Hindex ->].
  destruct (sort_index_spec
              (mkWide (map fst data)
                 (assemble (union_indexes (map (map fst) ss)) cols)))
    as [rs [-> [Hp _]]].
  unfold column_of. cbn [wrows] in Hp |- *.
  eapply perm_trans; [apply Permutation_map, Hp|].
  rewrite (assemble_column _ cols j (map snd s') Hjc).
  - rewrite Hindex, zip_own, Hs'. apply Permutation_refl.
  - rewrite Hindex. now rewrite !length_map.
Qed.

Lemma cell_project (r : row) (fields : list string) (field : string) :
  In field fields ->
  cell_of (map (fun f => (f, cell r f)) fields) field = cell r field.
Proof.
  induction fields as [|f fields IH]; intros Hin; [contradiction|].
  cbn [map cell_of]. destruct (String.eqb f field) eqn:E.
  - apply String.eqb_eq in E. now subst.
  - apply String.eqb_neq in E. destruct Hin as [Hf|Hin]; [contradiction|].
    now apply IH.
Qed.

Lemma cell_rename (ren : string -> string) (r : row) (fields : list string)
    (field : string) :
  NoDup (map ren fields) -> In field fields ->
  cell_of (map (fun f => (ren f, cell r f)) fields) (ren field)
  = cell r field.
Proof.
  induction fields as [|f fields IH]; intros Hnd Hin; [contradiction|].
  cbn [map] in Hnd. inversion Hnd as [|? ? Hn Hnd']; subst.
  cbn [map cell_of]. destruct (String.eqb (ren f) (ren field)) eqn:E.
  - apply String.eqb_eq in E. destruct Hin as [->|Hin]; [reflexivity|].
    exfalso. apply Hn. rewrite E. now apply in_map.
  - apply String.eqb_neq in E. destruct Hin as [->|Hin]; [contradiction|].
    now apply IH.
Qed.

(** A table is built only when no requested field is listed twice (given
    at least one symbol). *)
Lemma loop_fields_nodup `{Quicksort} (df : frame) (loop_fields : list string)
    (w : wide) (stock : string) :
  columns df = loop_fields ->
  new_structure_df df loop_fields = inr w ->
  In stock (symbols df) ->
  NoDup loop_fields.
Proof.
  intros Hcols Hw Hstock. unfold new_structure_df in Hw.
  destruct (new_structure_data df loop_fields) as [e|data] eqn:Ed;
    [discriminate|].
  cbn [rbind] in Hw.
  destruct (DataFrame data) as [e|new_df] eqn:Ef; [discriminate|].
  unfold new_structure_data in Ed.
  pose proof (for_stocks_keys _ _ _ _ _ Ed) as Hkeys.
  pose proof (for_stocks_selected _ _ _ _ _ (Forall_nil _) Ed) as Hsel.
  cbn [map] in Hkeys.
  apply NoDup_count_occ' with (decA := string_dec). intros f Hf.
  assert (Hk : In (stock, f) (map fst data)).
  { rewrite Hkeys. apply In_add_keys. right.
    apply in_flat_map. exists stock. split; [assumption|].
    now apply in_map. }
  apply in_map_iff in Hk. destruct Hk as [[k v] [Hk Hin]].
  cbn [fst] in Hk. subst k.
  rewrite Forall_forall in Hsel. specialize (Hsel _ Hin).
  unfold selected in Hsel. cbn [fst snd] in Hsel.
  destruct (DataFrame_one_column _ _ _ Ef Hin) as [s Hs].
  cbn [snd] in Hs. subst v.
  apply loc_one_column in Hsel. destruct Hsel as [Hc _].
  now rewrite <- Hcols.
Qed.

Lemma repeated_symbol (l : list row) (stock : string) :
  has_duplicates (map trade_date (filter (of_symbol stock) l)) = true ->
  In stock (unique (map ts_code l)).
Proof.
  intros Hd. apply In_unique.
  destruct (filter (of_symbol stock) l) as [|r rs] eqn:E; [discriminate|].
  assert (Hr : In r (filter (of_symbol stock) l)) by (rewrite E; now left).
  apply filter_In in Hr. destruct Hr as [Hr Hs].
  unfold of_symbol in Hs. apply String.eqb_eq in Hs. subst stock.
  now apply in_map.
Qed.

(** C8, as amended: the reshaping step has no check for repeated
    (date, symbol) rows and raises no data-quality error of its own.
    Whenever it returns a wide table for a long table in which a symbol
    repeats a date, each column of that symbol holds, label by label, every
    row the symbol has in the long table, the repeated dates as many times
    as they were returned: no row is chosen over another and none is
    dropped. *)
Theorem repeated_rows_are_kept `{Quicksort} (long : frame)
    (fields : list string) (w : wide) (stock field : string) (j : nat) :
  has_duplicates (map trade_date (filter (of_symbol stock) (rows long)))
    = true ->
  In field fields ->
  (forall mapped_fields,
     map_result (dict_get field_mapping) fields = inr mapped_fields ->
     reshape_prices long fields mapped_fields = inr w ->
     nth_error (wcolumns w) j = Some (stock, canonical field) ->
     Permutation (column_of w j)
       (map (fun r => (trade_date r, cell r field))
            (filter (of_symbol stock) (rows long)))) /\
  (reshape_factors long fields = inr w ->
   nth_error (wcolumns w) j = Some (stock, field) ->
   Permutation (column_of w j)
     (map (fun r => (trade_date r, cell r field))
          (filter (of_symbol stock) (rows long)))).
Proof.
  intros Hdup Hfield. split.
  - intros mapped Hm Hw Hj. unfold reshape_prices in Hw.
    destruct (getitem long fields) as [e|g] eqn:Eg; [discriminate|].
    cbn [rbind] in Hw.
    apply getitem_inr in Eg. destruct Eg as [Hc [Hr _]].
    destruct g as [gc gr]. cbn [columns rows] in Hc, Hr. subst gc gr.
    unfold rename in Hw. cbn [columns rows] in Hw. rewrite map_map in Hw.
    pose proof (mapped_fields_rename _ _ _ Hm) as Hren.
    assert (Hnd : NoDup (map (rename_label field_mapping) fields)).
    { rewrite Hren.
      eapply (loop_fields_nodup _ mapped w stock); [|exact Hw|].
      - cbn [columns]. exact Hren.
      - unfold symbols. cbn [rows]. rewrite map_map. cbn [ts_code].
        now apply repeated_symbol. }
    eapply perm_trans.
    + apply (new_structure_df_keeps_repeated _ _ _ stock (canonical field) j
               Hw); [|exact Hj].
      cbn [rows]. rewrite filter_of_symbol_map by reflexivity.
      rewrite map_map. cbn [trade_date]. exact Hdup.
    + cbn [rows]. rewrite filter_of_symbol_map by reflexivity.
      rewrite map_map. cbn [trade_date]. unfold cell at 1. cbn [cells].
      erewrite map_ext; [apply Permutation_refl|].
      intros r. cbn beta. f_equal. rewrite map_map. cbn [fst snd].
      unfold canonical. now apply cell_rename.
  - intros Hw Hj. unfold reshape_factors in Hw.
    destruct (getitem long fields) as [e|g] eqn:Eg; [discriminate|].
    cbn [rbind] in Hw.
    apply getitem_inr in Eg. destruct Eg as [Hc [Hr _]].
    destruct g as [gc gr]. cbn [columns rows] in Hc, Hr. subst gc gr.
    eapply perm_trans.
    + apply (new_structure_df_keeps_repeated _ _ _ stock field j Hw);
        [|exact Hj].
      cbn [rows]. rewrite filter_of_symbol_map by reflexivity.
      rewrite map_map. cbn [trade_date]. exact Hdup.
    + cbn [rows]. rewrite filter_of_symbol_map by reflexivity.
      rewrite map_map. cbn [trade_date]. unfold cell at 1. cbn [cells].
      erewrite map_ext; [apply Permutation_refl|].
      intros r. cbn beta. f_equal. now apply cell_project.
Qed.

(** C8, as stated, fails: a response in which AAA has two rows for
    2024-01-02 (closes 10.1 and 99.9) is reshaped without any error into a
    wide table with two rows for that date. *)
Lemma repeated_rows_raise_no_error :
  let w := mkWide [("AAA", "Close")]
             [(20240102, [Examples.f64 101 1]);
              (20240102, [Examples.f64 999 1])] in
  ~ no_repeated_pair Examples.repeated /\
  reshape_prices (H := insertion_sort) Examples.repeated ["close"] ["Close"]
    = inr w /\
  outcome (get_prices_from_tushare (H := insertion_sort)
             (Examples.handler
                (Examples.answering Examples.price_header
                   [("AAA", Examples.repeated)]))
             ["AAA"] ["close"] 0) = inr w.
Proof.
  cbv zeta. split; [|split].
  - unfold no_repeated_pair. cbn. intros Hnd.
    inversion Hnd as [|? ? Hn _]; subst. apply Hn. now left.
  - vm_compute. reflexivity.
  - vm_compute. reflexivity.
Qed.

Lemma repeated_rows_are_kept_witness :
  Permutation
    (column_of (mkWide [("AAA", "Close")]
                  [(20240102, [Examples.f64 101 1]);
                   (20240102, [Examples.f64 999 1])]) 0)
    (map (fun r => (trade_date r, cell r "close"))
         (filter (of_symbol "AAA") (rows Examples.repeated))).
Proof.
  destruct (repeated_rows_are_kept (H := insertion_sort) Examples.repeated
              ["close"]
              (mkWide [("AAA", "Close")]
                 [(20240102, [Examples.f64 101 1]);
                  (20240102, [Examples.f64 999 1])])
              "AAA" "close" 0) as [Hp _].
  - reflexivity.
  - now left.
  - apply (Hp ["Close"]); vm_compute; reflexivity.
Defined.

(** Where the repeated Series has to be aligned with another symbol's
    dates, pandas refuses to reindex it: the only failure repeated rows can
    cause. *)
Example repeated_rows_realigned :
  reshape_prices (H := insertion_sort)
    (mkFrame Examples.price_header
       (rows Examples.repeated ++ rows Examples.bbb))
    ["close"] ["Close"]
  = inl (ValueError ReindexDuplicateLabels).
Proof. vm_compute. reflexivity. Qed.

(** ** The reshaping step returns a table on a well-formed response *)

Lemma for_fields_returns (df : frame) (stock : string)
    (loop_fields : list string) :
  (forall f, In f loop_fields ->
             count_occ string_dec (columns df) f = 1%nat) ->
  forall data, exists data',
    for_fields df stock loop_fields data = inr data'.
Proof.
  induction loop_fields as [|f rest IH]; intros Hone data.
  - now exists data.
  - cbn [for_fields]. unfold loc at 1. rewrite (Hone f) by now left.
    cbn [rbind]. apply IH. intros f' Hf'. apply Hone. now right.
Qed.

Lemma for_stocks_returns (df : frame) (loop_fields stocks : list string) :
  (forall f, In f loop_fields ->
             count_occ string_dec (columns df) f = 1%nat) ->
  forall data, exists data',
    for_stocks df stocks loop_fields data = inr data'.
Proof.
  intros Hone. induction stocks as [|stock rest IH]; intros data.
  - now exists data.
  - cbn [for_stocks].
    destruct (for_fields_returns df stock loop_fields Hone data)
      as [data1 ->].
    cbn [rbind]. apply IH.
Qed.

Lemma new_structure_df_returns `{Quicksort} (df : frame)
    (loop_fields : list string) :
  (forall f, In f loop_fields ->
             count_occ string_dec (columns df) f = 1%nat) ->
  (forall s, NoDup (map trade_date (filter (of_symbol s) (rows df)))) ->
  exists w, new_structure_df df loop_fields = inr w.
Proof.
  intros Hone Hnd. unfold new_structure_df, new_structure_data.
  destruct (for_stocks_returns df loop_fields (symbols df) Hone [])
    as [data Ed].
  rewrite Ed. cbn [rbind].
  pose proof (for_stocks_keys _ _ _ _ _ Ed) as Hkeys.
  pose proof (for_stocks_selected _ _ _ _ _ (Forall_nil _) Ed) as Hsel.
  cbn [map] in Hkeys.
  assert (Hval : forall kv, In kv data ->
            as_series (snd kv) = inr (series_of (snd kv)) /\
            NoDup (map fst (series_of (snd kv)))).
  { intros [[s f] v] Hin. cbn [snd].
    rewrite Forall_forall in Hsel. pose proof (Hsel _ Hin) as Hloc.
    unfold selected in Hloc. cbn [fst snd] in Hloc.
    assert (Hf : In f loop_fields).
    { assert (Hk : In (s, f) (map fst data)).
      { change (s, f) with (fst ((s, f), v)). now apply in_map. }
      rewrite Hkeys in Hk. apply In_add_keys in Hk.
      destruct Hk as [[]|Hk]. apply in_flat_map in Hk.
      destruct Hk as [s' [_ Hk]]. apply in_map_iff in Hk.
      now destruct Hk as [f' [[= _ <-] Hf']]. }
    unfold loc in Hloc. rewrite (Hone f Hf) in Hloc.
    injection Hloc as <-. cbn [as_series series_of].
    split; [reflexivity|]. rewrite map_map. cbn [fst]. apply Hnd. }
  destruct data as [|kv0 data0] eqn:Edata.
  { eexists. reflexivity. }
  rewrite <- Edata in *.
  rewrite (DataFrame_nodup data (map series_of (map snd data))).
  - cbn [rbind]. eexists. reflexivity.
  - rewrite Edata. discriminate.
  - apply map_result_total. intros v Hv. apply in_map_iff in Hv.
    destruct Hv as [kv [<- Hkv]]. now apply Hval.
  - rewrite Forall_map, Forall_map, Forall_map.
    apply Forall_forall. intros kv Hkv. now apply Hval.
Qed.

Lemma count_occ_nodup (l : list string) (x : string) :
  NoDup l -> In x l -> count_occ string_dec l x = 1%nat.
Proof.
  intros Hnd Hin.
  now apply (proj1 (NoDup_count_occ' string_dec l) Hnd).
Qed.

Lemma getitem_returns (df : frame) (fields : list string) :
  Forall (fun f => In f (columns df)) fields ->
  getitem df fields =
  inr (mkFrame fields
         (map (fun r => mkRow (trade_date r) (ts_code r)
                          (map (fun f => (f, cell r f)) fields))
              (rows df))).
Proof.
  intros Hall. unfold getitem.
  destruct (find _ fields) as [f|] eqn:E; [|reflexivity].
  apply find_some in E. destruct E as [Hin Hf].
  rewrite Forall_forall in Hall. apply Hall, mem_In in Hin.
  now rewrite Hin in Hf.
Qed.

(** A factor response whose header has the requested factors, listed once
    each, and in which no (date, symbol) pair is repeated, is reshaped into
    a table. *)
Lemma reshape_factors_returns `{Quicksort} (long : frame)
    (factors : list string) :
  Forall (fun f => In f (columns long)) factors ->
  NoDup factors ->
  no_repeated_pair long ->
  exists w, reshape_factors long factors = inr w.
Proof.
  intros Hcols Hnd Hpairs. unfold reshape_factors.
  rewrite (getitem_returns _ _ Hcols). cbn [rbind].
  apply new_structure_df_returns.
  - intros f Hf. cbn [columns]. now apply count_occ_nodup.
  - intros s. cbn [rows]. rewrite filter_of_symbol_map by reflexivity.
    rewrite map_map. cbn [trade_date]. now apply no_repeated_pair_dates.
Qed.

Lemma canonical_injective (f g : string) :
  In f mapping_keys -> In g mapping_keys -> canonical f = canonical g ->
  f = g.
Proof.
  unfold mapping_keys. cbn. intros Hf Hg.
  repeat (destruct Hf as [<-|Hf]; [|]); try contradiction;
    repeat (destruct Hg as [<-|Hg]; [|]); try contradiction;
    cbn; intros Heq; try reflexivity; discriminate.
Qed.

(** The same for a price response and fields that the mapping knows. *)
Lemma reshape_prices_returns `{Quicksort} (long : frame)
    (fields : list string) :
  Forall (fun f => In f mapping_keys) fields ->
  Forall (fun f => In f (columns long)) fields ->
  NoDup fields ->
  no_repeated_pair long ->
  exists w,
    map_result (dict_get field_mapping) fields = inr (map canonical fields) /\
    reshape_prices long fields (map canonical fields) = inr w.
Proof.
  intros Hknown Hcols Hnd Hpairs.
  destruct (mapped_fields_known field_mapping fields Hknown) as [mapped Hm].
  pose proof (mapped_fields_rename _ _ _ Hm) as Hren.
  change (map (rename_label field_mapping) fields)
    with (map canonical fields) in Hren.
  rewrite Hren.
  assert (Hnd' : NoDup mapped).
  { rewrite <- Hren. clear - Hknown Hnd.
    induction Hnd as [|f fields Hn Hnd IH]; [constructor|].
    inversion Hknown as [|? ? Hf Hrest]; subst. cbn [map].
    constructor; [|now apply IH].
    intros Hin. apply in_map_iff in Hin. destruct Hin as [g [Hg Hgin]].
    rewrite Forall_forall in Hrest.
    apply canonical_injective in Hg; [now subst| |assumption].
    now apply Hrest. }
  unfold reshape_prices. rewrite (getitem_returns _ _ Hcols). cbn [rbind].
  destruct (new_structure_df_returns
              (rename field_mapping
                 (mkFrame fields
                    (map (fun r => mkRow (trade_date r) (ts_code r)
                                     (map (fun f => (f, cell r f)) fields))
                         (rows long))))
              mapped) as [w Hw].
  - intros f Hf. unfold rename. cbn [columns].
    change (map (rename_label field_mapping) fields)
      with (map canonical fields).
    rewrite Hren. now apply count_occ_nodup.
  - intros s. unfold rename. cbn [rows].
    rewrite !filter_of_symbol_map by reflexivity.
    rewrite !map_map. cbn [trade_date]. now apply no_repeated_pair_dates.
  - exists w. split; [exact Hm | exact Hw].
Qed.

(** ** The events of the sequential fetchers *)









Lemma fetched_cons (get : string -> response) (stock : string)
    (rest : list string) (all_data : list frame) :
  fetched get (stock :: rest) = inr all_data ->
  exists df others,
    get stock = Returned df /\ fetched get rest = inr others /\
    all_data = set_ts_code stock df :: others.
Proof.
  unfold fetched. cbn [map_result].
  destruct (get stock) as [|df]; [discriminate|]. cbn [of_response rbind].
  destruct (map_result _ rest) as [e|others]; [discriminate|].
  cbn [rbind]. intros [= <-]. now exists df, others.
Qed.














(** ** Pacing *)







(** ** The events of the batch fetchers *)

(** X4: a batch fetch makes exactly one remote call, for the symbols
    joined by commas, however many symbols there are -- also for the empty
    list, where it asks for the empty [ts_code] instead of failing -- and
    it never sleeps.  (For prices the fields must be known: otherwise no
    call is made.) *)
Theorem batch_fetch_makes_one_call `{Quicksort} (self : TushareDataHandler)
    (stock_list fields : list string) :
  (Forall (fun f => In f mapping_keys) fields ->
   remote_calls (get_prices_from_tushare_parallel self stock_list fields)
   = [Remote Daily (join "," stock_list) (start_date self) (end_date self)
        []]) /\
  remote_calls (get_factors_from_tushare_parallel self stock_list fields)
  = [Remote DailyBasic (join "," stock_list) (start_date self)
       (end_date self) (fields ++ ["trade_date"; "ts_code"])] /\
  remote_calls (get_factors_from_tushare_parallel self [] fields)
  = [Remote DailyBasic "" (start_date self) (end_date self)
       (fields ++ ["trade_date"; "ts_code"])] /\
  (forall t,
     ~ In (Sleep t)
          (trace (get_prices_from_tushare_parallel self stock_list fields))
     /\
     ~ In (Sleep t)
          (trace (get_factors_from_tushare_parallel self stock_list fields))).
Proof.
  assert (Hf : forall l,
             remote_calls (get_factors_from_tushare_parallel self l fields)
             = [Remote DailyBasic (join "," l) (start_date self)
                  (end_date self) (fields ++ ["trade_date"; "ts_code"])]).
  { intros l. unfold remote_calls. rewrite run_get_factors_parallel.
    cbv zeta. destruct (daily_basic _ _ _ _ _) as [|df]; [reflexivity|].
    destruct (empty df); reflexivity. }
  split; [|split; [|split]].
  - intros Hknown. unfold remote_calls. rewrite run_get_prices_parallel.
    destruct (mapped_fields_known field_mapping fields Hknown) as [mapped Hm].
    rewrite Hm. cbv zeta. destruct (daily _ _ _ _) as [|df]; [reflexivity|].
    destruct (empty df); reflexivity.
  - apply Hf.
  - apply (Hf []).
  - intros t. rewrite run_get_prices_parallel, run_get_factors_parallel.
    cbv zeta. split.
    + destruct (map_result _ fields) as [e|mapped]; [intros []|].
      destruct (daily _ _ _ _) as [|df]; [|destruct (empty df)]; simpl;
        intuition discriminate.
    + destruct (daily_basic _ _ _ _ _) as [|df]; [|destruct (empty df)];
        simpl; intuition discriminate.
Qed.

Lemma batch_fetch_makes_one_call_witness :
  remote_calls (get_prices_from_tushare_parallel (H := insertion_sort)
                  Examples.scenario_a ["AAA"; "BBB"] ["close"; "open"])
  = [Remote Daily "AAA,BBB" "20240101" "20240131" []].
Proof.
  apply (batch_fetch_makes_one_call (H := insertion_sort)
           Examples.scenario_a ["AAA"; "BBB"] ["close"; "open"]).
  apply Forall_forall. intros f [<-|[<-|[]]]; unfold mapping_keys; simpl;
    intuition.
Defined.

(** ** The symbols of a sequential table *)

Lemma filter_idempotent {A} (p : A -> bool) (l : list A) :
  filter p (filter p l) = filter p l.
Proof.
  induction l as [|x l IH]; [reflexivity|]. cbn [filter].
  destruct (p x) eqn:E; cbn [filter]; [rewrite E|]; now rewrite IH.
Qed.

Lemma unique_constant_app {A} (s : string) (rs : list A) (l : list string) :
  filter (fun s' => negb (String.eqb s' s))
         (unique (map (fun _ => s) rs ++ l))
  = filter (fun s' => negb (String.eqb s' s)) (unique l).
Proof.
  induction rs as [|r rs IH]; [reflexivity|].
  cbn [map app unique filter]. rewrite String.eqb_refl. cbn [negb].
  now rewrite filter_idempotent.
Qed.

Lemma symbols_fetched (get : string -> response) (stock_list : list string)
    (all_data : list frame) :
  fetched get stock_list = inr all_data ->
  unique (map ts_code (flat_map rows all_data))
  = unique (filter (has_rows get) stock_list).
Proof.
  revert all_data. induction stock_list as [|stock rest IH];
    intros all_data Hall.
  - unfold fetched in Hall. cbn in Hall. now injection Hall as <-.
  - apply fetched_cons in Hall.
    destruct Hall as [df [others [Hget [Hrest ->]]]].
    cbn [flat_map filter]. unfold has_rows at 1. rewrite Hget.
    rewrite map_app. cbn [set_ts_code rows]. rewrite map_map.
    cbn [ts_code]. unfold empty.
    destruct (rows df) as [|r rs]; cbn [map app negb].
    + now apply IH.
    + cbn [unique]. f_equal. rewrite unique_constant_app.
      now rewrite (IH others Hrest).
Qed.

Lemma reshape_prices_columns `{Quicksort} (long : frame)
    (fields mapped_fields : list string) (w : wide) :
  map_result (dict_get field_mapping) fields = inr mapped_fields ->
  reshape_prices long fields mapped_fields = inr w ->
  wcolumns w =
  flat_map (fun s => map (fun f => (s, canonical f)) fields) (symbols long).
Proof.
  intros Hm Hw. unfold reshape_prices in Hw.
  destruct (getitem long fields) as [e|df] eqn:Eg; [discriminate|].
  cbn [rbind] in Hw.
  pose proof (getitem_inr _ _ _ Eg) as [Hc _].
  apply new_structure_df_columns in Hw.
  - rewrite Hw, symbols_rename, (symbols_getitem _ _ _ Eg).
    rewrite <- (mapped_fields_rename _ _ _ Hm).
    apply flat_map_ext. intros s. now rewrite map_map.
  - unfold rename. cbn [columns]. rewrite Hc.
    now apply mapped_fields_rename.
Qed.

Lemma reshape_factors_columns `{Quicksort} (long : frame)
    (factors : list string) (w : wide) :
  reshape_factors long factors = inr w ->
  wcolumns w = flat_map (fun s => map (pair s) factors) (symbols long).
Proof.
  intros Hw. unfold reshape_factors in Hw.
  destruct (getitem long factors) as [e|df] eqn:Eg; [discriminate|].
  cbn [rbind] in Hw.
  pose proof (getitem_inr _ _ _ Eg) as [Hc _].
  apply new_structure_df_columns in Hw; [|exact Hc].
  now rewrite Hw, (symbols_getitem _ _ _ Eg).
Qed.

Lemma symbols_concat (all_data : list frame) (combined : frame) :
  concat all_data = inr combined ->
  symbols combined = unique (map ts_code (flat_map rows all_data)).
Proof.
  destruct all_data as [|df others]; [discriminate|].
  cbn [concat]. now intros [= <-].
Qed.

(** X5: the sequential fetchers label every row with the symbol they asked
    for ([df['ts_code'] = stock]), whatever the provider wrote.  So the
    symbols heading the columns of their table are the requested symbols
    whose call returned at least one row, each once, in the order of their
    first occurrence in [stock_list]. *)
Theorem sequential_columns_follow_the_list `{Quicksort}
    (self : TushareDataHandler) (stock_list fields : list string) (q : number)
    (w : wide) :
  (outcome (get_prices_from_tushare self stock_list fields q) = inr w ->
   wcolumns w =
   flat_map (fun s => map (fun f => (s, canonical f)) fields)
     (unique (filter (has_rows (fun ts => daily (pro self) ts
                                            (start_date self) (end_date self)))
                     stock_list))) /\
  (outcome (get_factors_from_tushare self stock_list fields q) = inr w ->
   wcolumns w =
   flat_map (fun s => map (pair s) fields)
     (unique (filter (has_rows (fun ts => daily_basic (pro self) ts
                                            (start_date self) (end_date self)
                                            (fields ++ ["trade_date"])))
                     stock_list))).
Proof.
  split.
  - intros Hw. apply outcome_get_prices_inr in Hw.
    destruct (map_result (dict_get field_mapping) fields) as [e|mapped] eqn:Em;
      [discriminate|].
    cbn [rbind] in Hw.
    destruct (fetched _ stock_list) as [e|all_data] eqn:Ef; [discriminate|].
    cbn [rbind] in Hw.
    destruct (concat all_data) as [e|combined] eqn:Ec; [discriminate|].
    cbn [rbind] in Hw.
    rewrite (reshape_prices_columns _ _ _ _ Em Hw).
    now rewrite (symbols_concat _ _ Ec), (symbols_fetched _ _ _ Ef).
  - intros Hw. apply outcome_get_factors_inr in Hw.
    destruct (fetched _ stock_list) as [e|all_data] eqn:Ef; [discriminate|].
    cbn [rbind] in Hw.
    destruct (concat all_data) as [e|combined] eqn:Ec; [discriminate|].
    cbn [rbind] in Hw.
    rewrite (reshape_factors_columns _ _ _ Hw).
    now rewrite (symbols_concat _ _ Ec), (symbols_fetched _ _ _ Ef).
Qed.

Lemma sequential_columns_witness :
  wcolumns Examples.scenario_a_wide =
  flat_map (fun s => map (fun f => (s, canonical f)) ["close"])
    (unique (filter (has_rows (fun ts => daily (pro Examples.scenario_a) ts
                                           "20240101" "20240131"))
                    ["AAA"; "CCC"; "BBB"])).
Proof.
  destruct (sequential_columns_follow_the_list (H := insertion_sort)
              Examples.scenario_a ["AAA"; "CCC"; "BBB"] ["close"] 0
              Examples.scenario_a_wide) as [Hp _].
  apply Hp. vm_compute. reflexivity.
Defined.

(** ** The rows and cells of a table without repeated pairs *)

Lemma series_labels (df : frame) (stock field : string) :
  map fst (map (fun r => (trade_date r, cell r field))
               (filter (of_symbol stock) (rows df)))
  = map trade_date (filter (of_symbol stock) (rows df)).
Proof. now rewrite map_map. Qed.

(** The table built when no symbol repeats a date, before and after
    [sort_index]: one row per label of the union, each column read by
    label from the Series of its key. *)
Lemma new_structure_df_form `{Quicksort} (df : frame)
    (loop_fields : list string) (w : wide) :
  (forall s, NoDup (map trade_date (filter (of_symbol s) (rows df)))) ->
  new_structure_df df loop_fields = inr w ->
  exists data,
    new_structure_data df loop_fields = inr data /\
    (forall kv, In kv data ->
       snd kv = OneColumn
                  (map (fun r => (trade_date r, cell r (snd (fst kv))))
                       (filter (of_symbol (fst (fst kv))) (rows df)))) /\
    w = sort_index
          (mkWide (map fst data)
             (map (fun d => (d, map (fun s => lookup s d)
                                    (map series_of (map snd data))))
                  (union_indexes
                     (map (map fst) (map series_of (map snd data)))))).
Proof.
  intros Hnd Hw. unfold new_structure_df in Hw.
  destruct (new_structure_data df loop_fields) as [e|data] eqn:Ed;
    [discriminate|].
  cbn [rbind] in Hw.
  destruct (DataFrame data) as [e|new_df] eqn:Ef; [discriminate|].
  cbn [rbind] in Hw. injection Hw as <-.
  exists data. split; [reflexivity|].
  pose proof (for_stocks_selected _ _ _ _ _ (Forall_nil _) Ed) as Hsel.
  rewrite Forall_forall in Hsel.
  assert (Hval : forall kv, In kv data ->
            snd kv = OneColumn
                       (map (fun r => (trade_date r, cell r (snd (fst kv))))
                            (filter (of_symbol (fst (fst kv))) (rows df)))).
  { intros kv Hin.
    destruct (DataFrame_one_column _ _ _ Ef Hin) as [s Hs].
    pose proof (Hsel _ Hin) as Hloc. unfold selected in Hloc.
    rewrite Hs in Hloc. apply loc_one_column in Hloc.
    destruct Hloc as [_ ->]. exact Hs. }
  split; [exact Hval|]. f_equal.
  destruct data as [|kv0 data0] eqn:Edata.
  { cbn in Ef. now injection Ef as <-. }
  rewrite <- Edata in *.
  rewrite (DataFrame_nodup data (map series_of (map snd data))) in Ef.
  - now injection Ef as <-.
  - rewrite Edata. discriminate.
  - apply map_result_total. intros v Hv. apply in_map_iff in Hv.
    destruct Hv as [kv [<- Hkv]]. now rewrite (Hval kv Hkv).
  - rewrite !Forall_map. apply Forall_forall. intros kv Hkv.
    rewrite (Hval kv Hkv). cbn [series_of]. rewrite series_labels.
    apply Hnd.
Qed.

Lemma wrows_sort_index `{Quicksort} (w : wide) :
  Permutation (wrows (sort_index w)) (wrows w).
Proof.
  destruct (sort_index_spec w) as [rs [-> [Hp _]]]. exact Hp.
Qed.

(** Every cell of such a table is read, by the label of its row, from the
    rows its column's symbol has in the long frame. *)
Lemma new_structure_df_cell `{Quicksort} (df : frame)
    (loop_fields : list string) (w : wide) (row : Z * list float)
    (j : nat) (stock field : string) :
  (forall s, NoDup (map trade_date (filter (of_symbol s) (rows df)))) ->
  new_structure_df df loop_fields = inr w ->
  In row (wrows w) ->
  nth_error (wcolumns w) j = Some (stock, field) ->
  nth j (snd row) Float64.nan
  = lookup (map (fun r => (trade_date r, cell r field))
                (filter (of_symbol stock) (rows df)))
           (fst row) /\
  List.length (snd row) = List.length (wcolumns w).
Proof.
  intros Hnd Hw Hrow Hj.
  destruct (new_structure_df_form df loop_fields w Hnd Hw)
    as [data [_ [Hval ->]]].
  rewrite sort_index_columns in *. cbn [wcolumns] in *.
  apply (Permutation_in _ (wrows_sort_index _)) in Hrow.
  cbn [wrows] in Hrow. apply in_map_iff in Hrow.
  destruct Hrow as [d [<- _]]. cbn [fst snd].
  split; [|now rewrite !length_map].
  rewrite nth_error_map in Hj.
  destruct (nth_error data j) as [kv|] eqn:Ej; [|discriminate].
  cbn in Hj. injection Hj as Hk.
  pose proof (Hval kv (nth_error_In _ _ Ej)) as Hv.
  rewrite Hk in Hv. cbn [fst snd] in Hv.
  apply nth_error_nth.
  rewrite (map_nth_error (fun s => lookup s d) j
             (map series_of (map snd data))
             (d := series_of (snd kv))).
  - now rewrite Hv.
  - apply map_nth_error. now apply map_nth_error.
Qed.

(** Its labels are the dates of the long frame, each once (given a field
    to make columns of). *)
Lemma new_structure_df_labels `{Quicksort} (df : frame)
    (loop_fields : list string) (w : wide) :
  (forall s, NoDup (map trade_date (filter (of_symbol s) (rows df)))) ->
  loop_fields <> [] ->
  new_structure_df df loop_fields = inr w ->
  NoDup (windex w) /\
  (forall d, In d (windex w) <-> In d (map trade_date (rows df))).
Proof.
  intros Hnd Hne Hw.
  destruct (new_structure_df_form df loop_fields w Hnd Hw)
    as [data [Ed [Hval ->]]].
  set (ss := map series_of (map snd data)).
  assert (Hall : Forall (@NoDup Z) (map (map fst) ss)).
  { unfold ss. rewrite !Forall_map. apply Forall_forall. intros kv Hkv.
    rewrite (Hval kv Hkv). cbn [series_of]. rewrite series_labels.
    apply Hnd. }
  destruct (union_indexes_nodup _ Hall) as [Hu Hin].
  assert (Hperm : Permutation
                    (windex (sort_index
                       (mkWide (map fst data)
                          (map (fun d => (d, map (fun s => lookup s d) ss))
                               (union_indexes (map (map fst) ss))))))
                    (union_indexes (map (map fst) ss))).
  { unfold windex. eapply perm_trans.
    - apply Permutation_map, wrows_sort_index.
    - cbn [wrows]. rewrite map_map. cbn [fst]. rewrite map_id.
      apply Permutation_refl. }
  split.
  - eapply Permutation_NoDup; [apply Permutation_sym, Hperm | exact Hu].
  - intros d. split.
    + intros Hd. apply (Permutation_in _ Hperm), Hin in Hd.
      destruct Hd as [i [Hi Hd]]. unfold ss in Hi.
      rewrite !map_map in Hi. apply in_map_iff in Hi.
      destruct Hi as [kv [<- Hkv]].
      rewrite (Hval kv Hkv) in Hd. cbn [series_of] in Hd.
      rewrite series_labels in Hd. apply in_map_iff in Hd.
      destruct Hd as [r [<- Hr]]. apply filter_In in Hr.
      apply in_map. tauto.
    + intros Hd. apply (Permutation_in _ (Permutation_sym Hperm)), Hin.
      apply in_map_iff in Hd. destruct Hd as [r [<- Hr]].
      destruct loop_fields as [|f0 fs]; [contradiction|].
      unfold new_structure_data in Ed.
      pose proof (for_stocks_keys _ _ _ _ _ Ed) as Hkeys. cbn [map] in Hkeys.
      assert (Hk : In (ts_code r, f0) (map fst data)).
      { rewrite Hkeys. apply In_add_keys. right. apply in_flat_map.
        exists (ts_code r). split.
        - apply In_symbols. now exists r.
        - now left. }
      apply in_map_iff in Hk. destruct Hk as [kv [Hk Hkv]].
      exists (map fst (series_of (snd kv))). split.
      * unfold ss. rewrite !map_map. apply in_map_iff. now exists kv.
      * rewrite (Hval kv Hkv), Hk. cbn [series_of fst snd].
        rewrite series_labels. apply in_map. apply filter_In.
        split; [assumption|]. unfold of_symbol. apply String.eqb_refl.
Qed.

Lemma lookup_row (l : list row) (stock : string) (g : row -> float) (r : row) :
  NoDup (map trade_date (filter (of_symbol stock) l)) ->
  In r l -> ts_code r = stock ->
  lookup (map (fun r' => (trade_date r', g r')) (filter (of_symbol stock) l))
         (trade_date r) = g r.
Proof.
  intros Hnd Hin Hs. apply lookup_In.
  - now rewrite map_map.
  - apply in_map_iff. exists r. split; [reflexivity|].
    apply filter_In. split; [assumption|].
    unfold of_symbol. now apply String.eqb_eq.
Qed.

Lemma lookup_no_row (l : list row) (stock : string) (g : row -> float)
    (d : Z) :
  (forall r, In r l -> ts_code r = stock -> trade_date r <> d) ->
  lookup (map (fun r' => (trade_date r', g r')) (filter (of_symbol stock) l))
         d = Float64.nan.
Proof.
  intros Hno. apply lookup_absent. rewrite map_map. cbn [fst].
  intros Hin. apply in_map_iff in Hin. destruct Hin as [r [Hd Hr]].
  apply filter_In in Hr. destruct Hr as [Hr Hs].
  unfold of_symbol in Hs. apply String.eqb_eq in Hs.
  exact (Hno r Hr Hs Hd).
Qed.

Lemma strictly_ascending (l : list Z) (i : nat) (d1 d2 : Z) :
  Sorted Z.le l -> NoDup l ->
  nth_error l i = Some d1 -> nth_error l (S i) = Some d2 -> d1 < d2.
Proof.
  intros Hs Hnd H1 H2.
  pose proof (sorted_adjacent l Hs i d1 d2 H1 H2) as Hle.
  assert (d1 <> d2).
  { intros ->. rewrite <- H2 in H1.
    apply (proj1 (NoDup_nth_error l) Hnd) in H1; [lia|].
    apply nth_error_Some. congruence. }
  lia.
Qed.

Lemma new_structure_df_index_sorted `{Quicksort} (df : frame)
    (loop_fields : list string) (w : wide) :
  new_structure_df df loop_fields = inr w -> Sorted Z.le (windex w).
Proof.
  unfold new_structure_df. intros Hw.
  destruct (new_structure_data df loop_fields) as [e|data]; [discriminate|].
  cbn [rbind] in Hw.
  destruct (DataFrame data) as [e|new_df]; [discriminate|].
  cbn [rbind] in Hw. injection Hw as <-. apply sort_index_sorted.
Qed.

(** The frame the price fetchers hand to the loops: the requested columns
    under their canonical names. *)
Lemma reshape_prices_inr `{Quicksort} (long : frame)
    (fields mapped_fields : list string) (w : wide) :
  reshape_prices long fields mapped_fields = inr w ->
  new_structure_df
    (mkFrame (map (rename_label field_mapping) fields)
       (map (fun r => mkRow (trade_date r) (ts_code r)
                        (map (fun f => (rename_label field_mapping f,
                                        cell r f)) fields))
            (rows long)))
    mapped_fields = inr w.
Proof.
  unfold reshape_prices. intros Hw.
  destruct (getitem long fields) as [e|g] eqn:Eg; [discriminate|].
  cbn [rbind] in Hw.
  apply getitem_inr in Eg. destruct Eg as [Hc [Hr _]].
  destruct g as [gc gr]. cbn [columns rows] in Hc, Hr. subst gc gr.
  rewrite <- Hw. f_equal. unfold rename. cbn [columns rows]. f_equal.
  rewrite map_map. apply map_ext. intros r.
  cbn [trade_date ts_code cells]. f_equal. now rewrite map_map.
Qed.

Lemma reshape_factors_inr `{Quicksort} (long : frame)
    (factors : list string) (w : wide) :
  reshape_factors long factors = inr w ->
  new_structure_df
    (mkFrame factors
       (map (fun r => mkRow (trade_date r) (ts_code r)
                        (map (fun f => (f, cell r f)) factors))
            (rows long)))
    factors = inr w.
Proof.
  unfold reshape_factors. intros Hw.
  destruct (getitem long factors) as [e|g] eqn:Eg; [discriminate|].
  cbn [rbind] in Hw.
  apply getitem_inr in Eg. destruct Eg as [Hc [Hr _]].
  destruct g as [gc gr]. cbn [columns rows] in Hc, Hr. now subst gc gr.
Qed.

Lemma dates_per_symbol_map (g : row -> row) (l : list row) (s : string) :
  (forall r, ts_code (g r) = ts_code r) ->
  (forall r, trade_date (g r) = trade_date r) ->
  NoDup (map (fun r => (trade_date r, ts_code r)) l) ->
  NoDup (map trade_date (filter (of_symbol s) (map g l))).
Proof.
  intros Hts Hd Hnd. rewrite filter_of_symbol_map by assumption.
  rewrite map_map. rewrite (map_ext _ trade_date) by assumption.
  now apply no_repeated_pair_dates.
Qed.

(** X6: reshaping a response in which no (date, symbol) pair is repeated
    gives one row per trading date of the response: the labels of the wide
    table are exactly the dates that occur in the long table, and they
    increase strictly from row to row. *)
Theorem wide_rows_are_the_dates `{Quicksort} (long : frame)
    (fields : list string) (w : wide) :
  no_repeated_pair long ->
  fields <> [] ->
  (exists mapped_fields,
     map_result (dict_get field_mapping) fields = inr mapped_fields /\
     reshape_prices long fields mapped_fields = inr w) \/
  reshape_factors long fields = inr w ->
  (forall d, In d (windex w) <->
             exists r, In r (rows long) /\ trade_date r = d) /\
  (forall i d1 d2,
     nth_error (windex w) i = Some d1 ->
     nth_error (windex w) (S i) = Some d2 -> d1 < d2).
Proof.
  intros Hpairs Hne Hw.
  assert (Hgen : NoDup (windex w) /\ Sorted Z.le (windex w) /\
                 forall d, In d (windex w) <->
                           In d (map trade_date (rows long))).
  { destruct Hw as [[mapped [Hm Hw]]|Hw].
    - apply reshape_prices_inr in Hw.
      pose proof (new_structure_df_index_sorted _ _ _ Hw) as Hs.
      apply new_structure_df_labels in Hw.
      + destruct Hw as [Hnd Hin]. split; [exact Hnd|]. split; [exact Hs|].
        intros d. rewrite Hin. cbn [rows]. rewrite map_map. reflexivity.
      + intros s. cbn [rows]. now apply dates_per_symbol_map.
      + apply mapped_fields_rename in Hm. subst mapped.
        destruct fields; [contradiction | discriminate].
    - apply reshape_factors_inr in Hw.
      pose proof (new_structure_df_index_sorted _ _ _ Hw) as Hs.
      apply new_structure_df_labels in Hw; [|  |exact Hne].
      + destruct Hw as [Hnd Hin]. split; [exact Hnd|]. split; [exact Hs|].
        intros d. rewrite Hin. cbn [rows]. rewrite map_map. reflexivity.
      + intros s. cbn [rows]. now apply dates_per_symbol_map. }
  destruct Hgen as [Hnd [Hs Hin]]. split.
  - intros d. rewrite Hin, in_map_iff. split; intros [r Hr]; exists r; tauto.
  - intros i d1 d2. now apply strictly_ascending.
Qed.

Lemma wide_rows_are_the_dates_witness :
  In 20240103 (windex Examples.scenario_a_wide) <->
  exists r, In r (rows Examples.aaa_bbb) /\ trade_date r = 20240103.
Proof.
  destruct (wide_rows_are_the_dates (H := insertion_sort) Examples.aaa_bbb
              ["close"] Examples.scenario_a_wide) as [Hd _].
  - unfold no_repeated_pair. cbn.
    repeat constructor; simpl; intuition discriminate.
  - discriminate.
  - left. exists ["Close"]. split; vm_compute; reflexivity.
  - exact (Hd 20240103).
Defined.

(** X7: in the table reshaped from a response without repeated
    (date, symbol) pairs, the cell in the row of date d and the column of
    (symbol, field) is the value the long table has for that symbol, field
    and date, and NaN -- the missing marker, not zero and not a neighbour's
    value -- when the symbol has no row on d.  Every row has one cell per
    column. *)
Theorem wide_cells_are_the_long_values `{Quicksort} (long : frame)
    (fields : list string) (w : wide) (row : Z * list float) (j : nat)
    (stock field : string) :
  no_repeated_pair long ->
  In field fields ->
  In row (wrows w) ->
  (forall mapped_fields,
     map_result (dict_get field_mapping) fields = inr mapped_fields ->
     reshape_prices long fields mapped_fields = inr w ->
     nth_error (wcolumns w) j = Some (stock, canonical field) ->
     cell_from_long long stock field (fst row)
       (nth j (snd row) Float64.nan) /\
     List.length (snd row) = List.length (wcolumns w)) /\
  (reshape_factors long fields = inr w ->
   nth_error (wcolumns w) j = Some (stock, field) ->
   cell_from_long long stock field (fst row) (nth j (snd row) Float64.nan) /\
   List.length (snd row) = List.length (wcolumns w)).
Proof.
  intros Hpairs Hfield Hrow. split.
  - intros mapped Hm Hw Hj. apply reshape_prices_inr in Hw.
    pose proof (mapped_fields_rename _ _ _ Hm) as Hren.
    assert (Hnd : forall s,
              NoDup (map trade_date
                       (filter (of_symbol s)
                          (map (fun r => mkRow (trade_date r) (ts_code r)
                                  (map (fun f =>
                                          (rename_label field_mapping f,
                                           cell r f)) fields))
                               (rows long)))))
      by (intros s; now apply dates_per_symbol_map).
    match type of Hw with
    | new_structure_df ?df ?lf = _ =>
        destruct (new_structure_df_cell df lf w row j stock
                    (canonical field) Hnd Hw Hrow Hj) as [Hcell Hlen]
    end.
    split; [|exact Hlen]. rewrite Hcell. cbn [rows].
    rewrite filter_of_symbol_map by reflexivity. rewrite map_map.
    cbn [trade_date]. unfold cell at 1. cbn [cells]. split.
    + intros r Hr Hs Hd. rewrite <- Hd.
      rewrite (lookup_row (rows long) stock
                 (fun r' => cell_of
                              (map (fun f => (rename_label field_mapping f,
                                              cell r' f)) fields)
                              (canonical field)) r);
        [|now apply no_repeated_pair_dates|assumption|assumption].
      unfold canonical. apply cell_rename; [|assumption].
      rewrite Hren.
      eapply (loop_fields_nodup _ mapped w stock); [|exact Hw|].
      * cbn [columns]. exact Hren.
      * unfold symbols. cbn [rows]. rewrite map_map. cbn [ts_code].
        apply In_unique. rewrite <- Hs. now apply in_map.
    + intros Hno. now apply lookup_no_row.
  - intros Hw Hj. apply reshape_factors_inr in Hw.
    assert (Hnd : forall s,
              NoDup (map trade_date
                       (filter (of_symbol s)
                          (map (fun r => mkRow (trade_date r) (ts_code r)
                                  (map (fun f => (f, cell r f)) fields))
                               (rows long)))))
      by (intros s; now apply dates_per_symbol_map).
    match type of Hw with
    | new_structure_df ?df ?lf = _ =>
        destruct (new_structure_df_cell df lf w row j stock field
                    Hnd Hw Hrow Hj) as [Hcell Hlen]
    end.
    split; [|exact Hlen]. rewrite Hcell. cbn [rows].
    rewrite filter_of_symbol_map by reflexivity. rewrite map_map.
    cbn [trade_date]. unfold cell at 1. cbn [cells]. split.
    + intros r Hr Hs Hd. rewrite <- Hd.
      rewrite (lookup_row (rows long) stock
                 (fun r' => cell_of (map (fun f => (f, cell r' f)) fields)
                              field) r);
        [|now apply no_repeated_pair_dates|assumption|assumption].
      now apply cell_project.
    + intros Hno. now apply lookup_no_row.
Qed.

Lemma wide_cells_witness :
  cell_from_long Examples.aaa_bbb "BBB" "close" 20240103 Float64.nan /\
  List.length [Examples.f64 102 1; Float64.nan]
  = List.length (wcolumns Examples.scenario_a_wide).
Proof.
  destruct (wide_cells_are_the_long_values (H := insertion_sort)
              Examples.aaa_bbb ["close"] Examples.scenario_a_wide
              (20240103, [Examples.f64 102 1; Float64.nan]) 1
              "BBB" "close") as [Hp _].
  - unfold no_repeated_pair. cbn.
    repeat constructor; simpl; intuition discriminate.
  - now left.
  - cbn. right. left. reflexivity.
  - apply (Hp ["Close"]); vm_compute; reflexivity.
Defined.

(** ** More on the benchmark method *)

Lemma np_cumprod_length (l : list float) :
  List.length (np_cumprod l) = List.length l.
Proof.
  destruct l as [|x l]; [reflexivity|]. cbn.
  now rewrite accumulate_mul_length.
Qed.

Lemma cumprod_length (values : list float) :
  List.length (cumprod values) = List.length values.
Proof.
  unfold cumprod. rewrite length_map, length_combine, np_cumprod_length.
  rewrite length_map. apply Nat.min_id.
Qed.

Lemma map_fst_combine {A B C} (g : A -> C) (l : list A) (l' : list B) :
  List.length l' = List.length l ->
  map (fun ab => g (fst ab)) (List.combine l l') = map g l.
Proof.
  revert l'. induction l as [|a l IH]; intros [|b l'] Hlen;
    try discriminate; [reflexivity|].
  cbn [List.combine map fst]. f_equal. apply IH. cbn in Hlen. lia.
Qed.

Lemma map_snd_combine {A B C} (g : B -> C) (l : list A) (l' : list B) :
  List.length l' = List.length l ->
  map (fun ab => g (snd ab)) (List.combine l l') = map g l'.
Proof.
  revert l'. induction l as [|a l IH]; intros [|b l'] Hlen;
    try discriminate; [reflexivity|].
  cbn [List.combine map snd]. f_equal. apply IH. cbn in Hlen. lia.
Qed.

(** X8: the failures of the benchmark method.  It makes one remote call;
    the provider's failure is passed on; an answer without the pct_chg
    column raises [KeyError]; an answer with no row at all raises
    [IndexError] (there is no first date to anchor), not an empty
    series. *)
Theorem benchmark_failures `{Quicksort} (self : TushareDataHandler)
    (index_code : string) :
  let run := get_index_prices_from_tushare self index_code in
  let call := Remote IndexDaily index_code (start_date self) (end_date self)
                [] in
  trace run = [call] /\
  (index_daily (pro self) index_code (start_date self) (end_date self)
     = Failed -> outcome run = inl RemoteError) /\
  (forall df,
     index_daily (pro self) index_code (start_date self) (end_date self)
       = Returned df ->
     (~ In "pct_chg" (columns df) -> outcome run = inl (KeyError "pct_chg"))
     /\
     (In "pct_chg" (columns df) -> rows df = [] ->
      outcome run = inl IndexError)).
Proof.
  cbv zeta. unfold get_index_prices_from_tushare, call_index_daily.
  destruct (index_daily (pro self) index_code (start_date self)
              (end_date self)) as [|df] eqn:E.
  - cbn. split; [reflexivity|]. split; [reflexivity|]. discriminate.
  - cbn [of_response lift emit bind app].
    pose proof (sort_by_perm _ trade_date (rows df)) as Hp.
    destruct (mem "pct_chg" (columns df)) eqn:Em; cbn [negb].
    + apply mem_In in Em.
      destruct (sort_by trade_date (rows df)) as [|first rest] eqn:Es.
      * cbn. split; [reflexivity|]. split; [discriminate|].
        intros df' [= <-]. split; [contradiction | reflexivity].
      * cbn. split; [reflexivity|]. split; [discriminate|].
        intros df' [= <-]. split; [contradiction|].
        intros _ Hrows. rewrite Hrows in Hp.
        apply Permutation_sym, Permutation_nil in Hp. discriminate.
    + cbn. split; [reflexivity|]. split; [discriminate|].
      intros df' [= <-]. split; [reflexivity|].
      intros Hin. apply mem_In in Hin. congruence.
Qed.

Lemma benchmark_failures_witness :
  outcome (get_index_prices_from_tushare (H := insertion_sort)
             (Examples.handler (Examples.no_data ["close"; "pct_chg"]))
             "000016.SH") = inl IndexError.
Proof.
  destruct (benchmark_failures (H := insertion_sort)
              (Examples.handler (Examples.no_data ["close"; "pct_chg"]))
              "000016.SH") as [_ [_ Hdf]].
  destruct (Hdf (mkFrame ["close"; "pct_chg"] []) eq_refl) as [_ Hempty].
  apply Hempty; [|reflexivity]. simpl. tauto.
Defined.

(** X9: the series the benchmark method returns has one row for every row
    of the answer, with its date and index code, in ascending date order
    -- whatever order the provider delivered them in. *)
Theorem benchmark_rows_ascending `{Quicksort} (self : TushareDataHandler)
    (index_code : string) (df : frame) (out : list benchmark_row) :
  index_daily (pro self) index_code (start_date self) (end_date self)
    = Returned df ->
  outcome (get_index_prices_from_tushare self index_code) = inr out ->
  Permutation (map (fun b => (b_trade_date b, b_ts_code b)) out)
              (map (fun r => (trade_date r, ts_code r)) (rows df)) /\
  Sorted Z.le (map b_trade_date out) /\
  List.length out = List.length (rows df).
Proof.
  intros Hdf Hout.
  unfold get_index_prices_from_tushare, call_index_daily in Hout.
  rewrite Hdf in Hout. cbn [of_response lift emit bind app] in Hout.
  destruct (negb (mem "pct_chg" (columns df))); [discriminate|].
  pose proof (sort_by_perm _ trade_date (rows df)) as Hp.
  pose proof (sort_by_sorted _ trade_date (rows df)) as Hs.
  set (sorted := sort_by trade_date (rows df)) in *.
  set (net := cumprod (map (fun r => growth (cell r "pct_chg")) sorted))
    in *.
  assert (Hlen : List.length net = List.length sorted).
  { unfold net. now rewrite cumprod_length, length_map. }
  destruct sorted as [|first rest] eqn:Esorted; [discriminate|].
  rewrite <- Esorted in *. cbn [outcome snd ret] in Hout.
  injection Hout as <-. split; [|split].
  - rewrite map_map. cbn [b_trade_date b_ts_code].
    rewrite (map_fst_combine (fun r => (trade_date r, ts_code r)) sorted net
               Hlen).
    now apply Permutation_map.
  - rewrite map_map. cbn [b_trade_date].
    rewrite (map_fst_combine trade_date sorted net Hlen).
    now apply sorted_map_key.
  - rewrite length_map, length_combine, Hlen, Nat.min_id.
    now apply Permutation_length.
Qed.

Lemma benchmark_rows_ascending_witness :
  Sorted Z.le [20240102; 20240103; 20240104].
Proof.
  destruct (benchmark_rows_ascending (H := insertion_sort)
              (Examples.handler
                 (Examples.answering [] [("000016.SH", Examples.scenario_c)]))
              "000016.SH" Examples.scenario_c
              [mkBenchmark 20240102 "000016.SH" Float64.one;
               mkBenchmark 20240103 "000016.SH"
                 (S754_finite false 8961712898504549 (-53));
               mkBenchmark 20240104 "000016.SH" (Examples.f64 1014849 6)])
    as [_ [Hs _]].
  - reflexivity.
  - vm_compute. reflexivity.
  - exact Hs.
Defined.

Lemma accumulate_mul_step (l : list float) :
  forall (acc : float) (i : nat) (v x : float),
    nth_error (accumulate_mul acc l) i = Some v ->
    nth_error l (S i) = Some x ->
    nth_error (accumulate_mul acc l) (S i) = Some (Float64.mul v x).
Proof.
  induction l as [|y l IH]; intros acc i v x Hv Hx; [discriminate|].
  cbn [accumulate_mul] in *. destruct i as [|i].
  - cbn in Hv. injection Hv as <-. cbn in Hx |- *.
    destruct l as [|x' l]; [discriminate|]. cbn in Hx. injection Hx as ->.
    reflexivity.
  - cbn in Hv. change (nth_error l (S i) = Some x) in Hx.
    change (nth_error (accumulate_mul (Float64.mul acc y) l) (S i)
            = Some (Float64.mul v x)).
    now apply IH.
Qed.

(** X10: the net values beyond the first.  On a series with distinct dates
    and no NaN, the first value is 1.0, the second is
    (1 + pct[0]/100) * (1 + pct[1]/100), and from there on each value is the
    one before it times (1 + pct/100) of its own row (binary64 products,
    taken in date order). *)
Theorem net_value_recurrence `{Quicksort} (self : TushareDataHandler)
    (index_code : string) (df : frame) (first : row) (rest : list row) :
  index_daily (pro self) index_code (start_date self) (end_date self)
    = Returned df ->
  In "pct_chg" (columns df) ->
  sort_by trade_date (rows df) = first :: rest ->
  NoDup (map trade_date (rows df)) ->
  Forall (fun r => Float64.isnan (growth (cell r "pct_chg")) = false)
         (rows df) ->
  exists out,
    outcome (get_index_prices_from_tushare self index_code) = inr out /\
    let values := map benchmark_net_value out in
    nth_error values 0 = Some Float64.one /\
    (forall second,
       nth_error rest 0 = Some second ->
       nth_error values 1
       = Some (Float64.mul (growth (cell first "pct_chg"))
                           (growth (cell second "pct_chg")))) /\
    (forall i v r,
       (1 <= i)%nat ->
       nth_error values i = Some v ->
       nth_error (first :: rest) (S i) = Some r ->
       nth_error values (S i)
       = Some (Float64.mul v (growth (cell r "pct_chg")))).
Proof.
  intros Hdf Hcol Hsort Hnd Hnan.
  eexists. split.
  { exact (net_values_keep_first_change self index_code df first rest
             Hdf Hcol Hsort Hnd Hnan). }
  cbv zeta. cbn [map benchmark_net_value].
  rewrite map_map. cbn [benchmark_net_value].
  rewrite (map_snd_combine (fun v => v) rest)
    by now rewrite accumulate_mul_length, length_map.
  rewrite map_id.
  split; [reflexivity|]. split.
  - intros second Hsecond. destruct rest as [|r rest']; [discriminate|].
    cbn in Hsecond. injection Hsecond as ->. reflexivity.
  - intros i v r Hi Hv Hr. destruct i as [|i]; [lia|].
    cbn [nth_error] in Hv, Hr |- *.
    apply accumulate_mul_step; [exact Hv|].
    exact (map_nth_error (fun r => growth (cell r "pct_chg")) (S i) rest Hr).
Qed.

Lemma net_value_recurrence_witness :
  let day (date : Z) (pct : float) :=
    mkRow date "000016.SH" [("close", Examples.f64 0 0); ("pct_chg", pct)] in
  let r1 := day 20240102 (Examples.f64 5 1) in
  let r2 := day 20240103 (Examples.f64 (-10) 1) in
  let r3 := day 20240104 (Examples.f64 20 1) in
  exists out,
    outcome (get_index_prices_from_tushare (H := insertion_sort)
               (Examples.handler
                  (Examples.answering [] [("000016.SH", Examples.scenario_c)]))
               "000016.SH") = inr out /\
    nth_error (map benchmark_net_value out) 2
    = Some (Float64.mul
              (Float64.mul (growth (cell r1 "pct_chg"))
                           (growth (cell r2 "pct_chg")))
              (growth (cell r3 "pct_chg"))).
Proof.
  intros day r1 r2 r3.
  destruct (net_value_recurrence (H := insertion_sort)
              (Examples.handler
                 (Examples.answering [] [("000016.SH", Examples.scenario_c)]))
              "000016.SH" Examples.scenario_c r1 [r2; r3])
    as [out [Hout [_ [Hsecond Hrec]]]].
  - reflexivity.
  - right. left. reflexivity.
  - vm_compute. reflexivity.
  - vm_compute. repeat constructor; simpl; intuition discriminate.
  - repeat (constructor; [vm_compute; reflexivity|]). constructor.
  - exists out. split; [exact Hout|].
    apply Hrec; [lia | apply Hsecond; reflexivity | reflexivity].
Defined.

(** ** The constituents of an index *)

Lemma In_con_codes (index_weights : list weight_row) (c : string) :
  In c (map con_code index_weights) <->
  exists w, In w index_weights /\ con_code w = c.
Proof.
  rewrite in_map_iff. split; intros [w [H1 H2]]; exists w; now split.
Qed.

(** X11: [get_index_list] returns the constituent codes of the answer as a
    set: no code twice, a code is listed exactly when some row of the answer
    carries it (on whatever date and with whatever weight), so the list is
    never longer than the answer.  The order is the only thing Python's set
    leaves open: any other order gives a permutation of the same list. *)
Theorem index_list_is_the_constituents `{order : SetOrder}
    (index_weight : index_weight_api) (self : TushareDataHandler)
    (index_code : string) (index_weights : list weight_row) :
  index_weight index_code (start_date self) (end_date self)
  = Weights index_weights ->
  exists stocks,
    get_index_list index_weight self index_code = inr stocks /\
    NoDup stocks /\
    (forall c, In c stocks <->
               exists w, In w index_weights /\ con_code w = c) /\
    (List.length stocks <= List.length index_weights)%nat /\
    (forall other : SetOrder,
       exists stocks',
         get_index_list (H := other) index_weight self index_code
         = inr stocks' /\
         Permutation stocks stocks').
Proof.
  intros Hw. unfold get_index_list. rewrite Hw. cbv zeta.
  exists (list_of_set (map con_code index_weights)).
  split; [reflexivity|]. split; [apply list_of_set_NoDup|].
  split; [|split].
  - intros c. rewrite list_of_set_In. apply In_con_codes.
  - rewrite <- (length_map con_code index_weights).
    apply NoDup_incl_length; [apply list_of_set_NoDup|].
    intros c Hc. exact (proj1 (list_of_set_In _ c) Hc).
  - intros other. eexists. split; [reflexivity|].
    apply NoDup_Permutation; try apply list_of_set_NoDup.
    intros c. now rewrite !list_of_set_In.
Qed.

Lemma index_list_witness :
  exists stocks,
    get_index_list (H := first_seen) Examples.membership_api
      (Examples.handler (Examples.no_data [])) "000016.SH" = inr stocks /\
    NoDup stocks /\
    (List.length stocks <= 4)%nat.
Proof.
  destruct (index_list_is_the_constituents (order := first_seen)
              Examples.membership_api
              (Examples.handler (Examples.no_data [])) "000016.SH"
              Examples.membership)
    as [stocks [Hs [Hnd [_ [Hlen _]]]]].
  - reflexivity.
  - exists stocks. split; [exact Hs|]. split; [exact Hnd | exact Hlen].
Defined.




(** ** What the sequential fetchers assemble *)











(** X15: when the batch fetchers return a table.  The one call answers
    with at least one row, no (date, symbol) pair twice and every requested
    column, and no field is requested twice (and, for prices, every field is
    a key of the mapping): then the fetcher returns a table -- neither
    [None] nor an exception. *)
Theorem batch_fetch_returns_a_table `{Quicksort} (self : TushareDataHandler)
    (stock_list fields : list string) (df_all : frame) :
  empty df_all = false ->
  no_repeated_pair df_all ->
  Forall (fun f => In f (columns df_all)) fields ->
  NoDup fields ->
  (Forall (fun f => In f mapping_keys) fields ->
   daily (pro self) (join "," stock_list) (start_date self) (end_date self)
   = Returned df_all ->
   exists w,
     outcome (get_prices_from_tushare_parallel self stock_list fields)
     = inr (Some w)) /\
  (daily_basic (pro self) (join "," stock_list) (start_date self)
     (end_date self) (fields ++ ["trade_date"; "ts_code"])
   = Returned df_all ->
   exists w,
     outcome (get_factors_from_tushare_parallel self stock_list fields)
     = inr (Some w)).
Proof.
  intros Hrows Hpairs Hcols Hnd. split.
  - intros Hknown Hget.
    destruct (reshape_prices_returns df_all fields Hknown Hcols Hnd Hpairs)
      as [w [Hm Hw]].
    exists w. rewrite outcome_get_prices_parallel, Hm. cbn [rbind].
    rewrite Hget. cbn [of_response rbind]. rewrite Hrows, Hw. reflexivity.
  - intros Hget.
    destruct (reshape_factors_returns df_all fields Hcols Hnd Hpairs)
      as [w Hw].
    exists w. rewrite outcome_get_factors_parallel, Hget.
    cbn [of_response rbind]. rewrite Hrows, Hw. reflexivity.
Qed.

Lemma batch_fetch_returns_witness :
  exists w,
    outcome (get_prices_from_tushare_parallel (H := insertion_sort)
               Examples.scenario_a ["AAA"; "BBB"] ["close"]) = inr (Some w).
Proof.
  destruct (batch_fetch_returns_a_table (H := insertion_sort)
              Examples.scenario_a ["AAA"; "BBB"] ["close"] Examples.aaa_bbb)
    as [Hp _].
  - reflexivity.
  - unfold no_repeated_pair. cbn.
    repeat constructor; simpl; intuition discriminate.
  - constructor; [|constructor]. cbn. intuition.
  - repeat constructor; simpl; intuition.
  - apply Hp.
    + apply Forall_forall. intros f [<-|[]]. unfold mapping_keys. simpl.
      intuition.
    + reflexivity.
Defined.

(** ** No field requested *)





(** ** A field requested twice *)














(** ** Batch fetch against sequential fetch: the statement *)






